(** * Septentrio exporter: the SBF stream handler, the block decoder and the
      station supervisor of [main.go], embedded and verified.

    The Go program reads a TCP byte stream, looks for the two sync
    characters, reads an 8-byte SBF header, reads the payload and hands it to
    [parseBlock], which sets Prometheus gauges.  Here

    - a connection's byte stream is the finite [list byte] that arrives before
      the first read error (end of stream);
    - a gauge update [g.WithLabelValues(station).Set(v)] is a [Sample];
    - Go run-time panics (index or slice out of range) are [None] in
      [parseBlock] and the exit status [Panic] in [handleStream];
    - gauge values are [Z]: every [float64] the program builds is an integer
      of magnitude below [2^53] (a [uint8], an [int8], a [uint32], or a
      [uint32] times [2^20]), so the conversion and the two multiplications
      by 1024 are exact. *)

From Stdlib Require Import String.
From Stdlib Require Import ZArith List Bool Lia Arith PeanoNat.
From Stdlib Require Import Init.Byte Strings.Byte.
Import ListNotations.

Local Open Scope Z_scope.

(** ** Machine integers *)

Module GoInt.

(** [uintN(b)] for a byte [b]. *)
Definition u8 (b : byte) : Z := Z.of_N (Byte.to_N b).

(** [int8(b)]: the same eight bits read in two's complement. *)
Definition int8 (b : byte) : Z :=
  if u8 b <? 128 then u8 b else u8 b - 256.

(** [a - b] on [uint32]. *)
Definition sub32 (a b : Z) : Z := (a - b) mod 2 ^ 32.

(** [float64(x)] for an integer [x]; exact on every value the program
    converts. *)
Definition float64 (x : Z) : Z := x.

(** [b[i]]; [None] is the run-time panic of an index out of range. *)
Definition index (b : list byte) (i : nat) : option byte := nth_error b i.

(** [b[lo:hi]] on a slice whose capacity is its length. *)
Definition slice (b : list byte) (lo hi : nat) : option (list byte) :=
  if ((lo <=? hi) && (hi <=? length b))%nat
  then Some (firstn (hi - lo) (skipn lo b))
  else None.

(** [binary.LittleEndian.Uint16]. *)
Definition Uint16 (b : list byte) : option Z :=
  match b with
  | b0 :: b1 :: _ => Some (Z.lor (u8 b0) (Z.shiftl (u8 b1) 8))
  | _ => None
  end.

(** [binary.LittleEndian.Uint32]. *)
Definition Uint32 (b : list byte) : option Z :=
  match b with
  | b0 :: b1 :: b2 :: b3 :: _ =>
      Some (Z.lor (Z.lor (Z.lor (u8 b0) (Z.shiftl (u8 b1) 8))
                         (Z.shiftl (u8 b2) 16))
                  (Z.shiftl (u8 b3) 24))
  | _ => None
  end.

End GoInt.
Import GoInt.

(** Sequencing of operations that may panic. *)
Definition bind {A B : Type} (m : option A) (k : A -> option B) : option B :=
  match m with
  | Some a => k a
  | None => None
  end.

Notation "x <- m ;; k" := (bind m (fun x => k))
  (at level 61, m at next level, right associativity).

(** ** Constants *)

Definition SyncChar1 : byte := "$"%byte.
Definition SyncChar2 : byte := "@"%byte.

Definition BlockID_PVTGeodetic : Z := 4007.
Definition BlockID_ReceiverStatus : Z := 4014.
Definition BlockID_MeasEpoch : Z := 4027.
Definition BlockID_DiskStatus : Z := 4059.
Definition BlockID_QualityInd : Z := 4082.
Definition BlockID_RFStatus : Z := 4092.

(** ** Metrics *)

(** The gauge vectors of the program, by the names of their variables. *)
Inductive Gauge : Set :=
| satellitesTracked
| satellitesUsed
| jammingStatus
| receiverConnected
| cpuLoad
| temperature
| uptime
| diskFree
| qualityOverall
| qualitySignal
| qualityRF.

(** One call [gauge.WithLabelValues(station).Set(value)]. *)
Record Sample : Set := SetGauge {
  gauge : Gauge;
  station : string;
  value : Z
}.

(** ** The block decoder *)

Definition parseBlock (stationName : string) (id : Z) (payload : list byte)
  : option (list Sample) :=
  if id =? BlockID_PVTGeodetic then
    if (66 <? length payload)%nat then
      nrSv <- index payload 66 ;;
      Some [SetGauge satellitesUsed stationName (float64 (u8 nrSv))]
    else Some []
  else if id =? BlockID_MeasEpoch then
    if (6 <? length payload)%nat then
      n <- index payload 6 ;;
      Some [SetGauge satellitesTracked stationName (float64 (u8 n))]
    else Some []
  else if id =? BlockID_RFStatus then
    if (8 <? length payload)%nat then
      flags <- index payload 8 ;;
      let state := 0 in
      let state := if negb (Z.land (u8 flags) 1 =? 0) then 1 else state in
      let state := if negb (Z.land (u8 flags) 2 =? 0) then 2 else state in
      Some [SetGauge jammingStatus stationName state]
    else Some []
  else if id =? BlockID_ReceiverStatus then
    if (16 <=? length payload)%nat then
      cpu <- index payload 6 ;;
      up <- (b <- slice payload 7 11 ;; Uint32 b) ;;
      temp <- index payload 15 ;;
      Some [SetGauge cpuLoad stationName (float64 (u8 cpu));
            SetGauge uptime stationName (float64 up);
            SetGauge temperature stationName (float64 (int8 temp))]
    else Some []
  else if id =? BlockID_QualityInd then
    if (9 <=? length payload)%nat then
      qOver <- index payload 6 ;;
      qSig <- index payload 7 ;;
      qRF <- index payload 8 ;;
      Some [SetGauge qualityOverall stationName (float64 (u8 qOver));
            SetGauge qualitySignal stationName (float64 (u8 qSig));
            SetGauge qualityRF stationName (float64 (u8 qRF))]
    else Some []
  else if id =? BlockID_DiskStatus then
    if (20 <=? length payload)%nat then
      capacityMB <- (b <- slice payload 9 13 ;; Uint32 b) ;;
      usedMB <- (b <- slice payload 13 17 ;; Uint32 b) ;;
      let freeBytes := float64 (sub32 capacityMB usedMB) * 1024 * 1024 in
      Some [SetGauge diskFree stationName freeBytes]
    else Some []
  else Some [].

(** ** The stream handler *)

(** How a Go function stopped: it returned, it panicked, or (for the models
    that count loop iterations) it was still running when the count ran
    out. *)
Inductive Exit : Set := Return | Panic | Fuel.

(** One call [parseBlock(stationName, baseID, payload, log)] of
    [handleStream], with the value of the local variable [length] at the call
    and the gauge updates the call made. *)
Record Frame : Set := mkFrame {
  frameID : Z;
  frameLength : Z;
  framePayload : list byte;
  frameSamples : list Sample
}.

Definition Result : Set := (list Frame * Exit)%type.

Definition emit (f : Frame) (r : Result) : Result := (f :: fst r, snd r).

(** [io.ReadFull(reader, buf)] with [len(buf) = n]: the [n] bytes read and
    the rest of the stream, or [None] for the error of a stream that ends
    first.  With [n = 0] it succeeds on every stream, as in Go. *)
Definition ReadFull (reader : list byte) (n : nat)
  : option (list byte * list byte) :=
  if (n <=? length reader)%nat
  then Some (firstn n reader, skipn n reader)
  else None.

(** The body of the [for] loop of [handleStream]; [continue] is the next
    iteration on the stream that is left.  [headerBuf[0:2]] is never written
    and keeps the zeroes of [make]. *)
Definition handleStream_body (stationName : string)
    (continue : list byte -> Result) (reader : list byte) : Result :=
  match reader with
  | [] => ([], Return)
  | b :: reader =>
    if negb (Byte.eqb b SyncChar1) then continue reader else
    match reader with
    | [] => ([], Return)
    | b :: reader =>
      if negb (Byte.eqb b SyncChar2) then continue reader else
      match ReadFull reader 6 with
      | None => ([], Return)
      | Some (hdr, reader) =>
        let headerBuf := [x00; x00] ++ hdr in
        match (b <- slice headerBuf 4 6 ;; Uint16 b),
              (b <- slice headerBuf 6 8 ;; Uint16 b) with
        | Some idRaw, Some length =>
          let baseID := Z.land idRaw 0x1FFF in
          if (length <? 8) || (length >? 8192) then continue reader else
          let payloadLen := length - 8 in
          match ReadFull reader (Z.to_nat payloadLen) with
          | None => ([], Return)
          | Some (payload, reader) =>
            match parseBlock stationName baseID payload with
            | None => ([], Panic)
            | Some samples =>
                emit (mkFrame baseID length payload samples) (continue reader)
            end
          end
        | _, _ => ([], Panic)
        end
      end
    end
  end.

Fixpoint handleStream_fuel (fuel : nat) (stationName : string)
    (reader : list byte) : Result :=
  match fuel with
  | O => ([], Fuel)
  | S fuel =>
      handleStream_body stationName (handleStream_fuel fuel stationName) reader
  end.

(** Every iteration reads at least one byte, so one more iteration than the
    stream has bytes is enough (see [handleStream_unfold] and
    [handleStream_returns]). *)
Definition handleStream (stationName : string) (conn : list byte) : Result :=
  handleStream_fuel (S (length conn)) stationName conn.

(** The gauge updates of a run, in order. *)
Definition samplesOf (r : Result) : list Sample :=
  flat_map frameSamples (fst r).

(** [true] when the two sync characters occur next to each other somewhere
    in the stream. *)
Fixpoint hasMarker (s : list byte) : bool :=
  match s with
  | [] => false
  | b1 :: tl =>
      match tl with
      | [] => false
      | b2 :: _ => (Byte.eqb b1 SyncChar1 && Byte.eqb b2 SyncChar2) || hasMarker tl
      end
  end.

(** *** The checksum bytes of a stream

    [checksumMask s] marks, position by position, the bytes of [s] that
    [handleStream] reads as the CRC field of a header (the two bytes after a
    sync pair it found, whenever the six header bytes arrive).  It follows the
    loop of [handleStream] case by case; positions past its end are
    unmarked. *)
Definition checksumMask_body (continue : list byte -> list bool)
    (reader : list byte) : list bool :=
  match reader with
  | [] => []
  | b :: reader =>
    if negb (Byte.eqb b SyncChar1) then false :: continue reader else
    match reader with
    | [] => [false]
    | b :: reader =>
      if negb (Byte.eqb b SyncChar2) then false :: false :: continue reader else
      match ReadFull reader 6 with
      | None => []
      | Some (hdr, reader) =>
        let headerBuf := [x00; x00] ++ hdr in
        [false; false; true; true; false; false; false; false] ++
        match (b <- slice headerBuf 6 8 ;; Uint16 b) with
        | Some length =>
          if (length <? 8) || (length >? 8192) then continue reader else
          match ReadFull reader (Z.to_nat (length - 8)) with
          | None => []
          | Some (payload, reader) =>
              repeat false (List.length payload) ++ continue reader
          end
        | None => []
        end
      end
    end
  end.

Fixpoint checksumMask_fuel (fuel : nat) (reader : list byte) : list bool :=
  match fuel with
  | O => []
  | S fuel => checksumMask_body (checksumMask_fuel fuel) reader
  end.

Definition checksumMask (conn : list byte) : list bool :=
  checksumMask_fuel (S (length conn)) conn.

(** Two streams of the same length that agree at every position that is not
    a checksum position of the first. *)
Definition sameButChecksums (s1 s2 : list byte) : Prop :=
  length s1 = length s2 /\
  forall i : nat,
    nth i (checksumMask s1) false = false -> nth_error s1 i = nth_error s2 i.

(** ** The station supervisor *)

Record StationConfig : Set := mkStation {
  Name : string;
  Host : string;
  Port : Z
}.

(** What [monitorStation] does to the outside, in order (logging apart). *)
Inductive Event : Set :=
| EvSet (s : Sample)                      (* a gauge update *)
| EvDial (attempt : nat) (seconds : Z)    (* [net.DialTimeout] *)
| EvSleep (seconds : Z)                   (* [time.Sleep] *)
| EvHandleStream (conn : list byte)       (* the call of [handleStream] *)
| EvClose.                                (* [conn.Close()] *)

Definition Run : Set := (list Event * Exit)%type.

Definition after (evs : list Event) (r : Run) : Run := (evs ++ fst r, snd r).

(** [true] for the update that sets the connectivity gauge to 1. *)
Definition setsConnected (e : Event) : bool :=
  match e with
  | EvSet (SetGauge receiverConnected _ v) => v =? 1
  | _ => false
  end.

Definition isHandleStream (e : Event) : bool :=
  match e with
  | EvHandleStream _ => true
  | _ => false
  end.

Definition isDial (e : Event) : bool :=
  match e with
  | EvDial _ _ => true
  | _ => false
  end.

(** Seconds spent in [time.Sleep]. *)
Fixpoint slept (evs : list Event) : Z :=
  match evs with
  | [] => 0
  | EvSleep n :: evs => n + slept evs
  | _ :: evs => slept evs
  end.

Section Supervisor.

(** The network: the outcome of the [attempt]-th call of
    [net.DialTimeout], an error ([None]) or a connection and the bytes it
    will deliver. *)
Variable dial : nat -> option (list byte).

(** The body of the [for] loop of [monitorStation]; [continue] is the next
    iteration. *)
Definition monitorStation_body (s : StationConfig)
    (continue : nat -> Run) (attempt : nat) : Run :=
  let disconnected := EvSet (SetGauge receiverConnected (Name s) 0) in
  match dial attempt with
  | None =>
      after [disconnected; EvDial attempt 5; EvSleep 10]
            (continue (S attempt))
  | Some conn =>
      let r := handleStream (Name s) conn in
      let evs := [disconnected; EvDial attempt 5;
                  EvSet (SetGauge receiverConnected (Name s) 1);
                  EvHandleStream conn] ++ map EvSet (samplesOf r) in
      match snd r with
      | Return => after (evs ++ [EvClose; EvSleep 5]) (continue (S attempt))
      | e => (evs, e)
      end
  end.

(** The first [fuel] iterations of the loop, from the [attempt]-th dial
    on.  The loop has no [break] and the function no [return]: the exit
    status is [Fuel] (still looping) unless [handleStream] panicked. *)
Fixpoint monitorStation_fuel (fuel : nat) (s : StationConfig)
    (attempt : nat) : Run :=
  match fuel with
  | O => ([], Fuel)
  | S fuel => monitorStation_body s (monitorStation_fuel fuel s) attempt
  end.

Definition monitorStation (fuel : nat) (s : StationConfig) : Run :=
  monitorStation_fuel fuel s 0.

End Supervisor.

(** The events of [n] failed attempts in a row, from attempt [k] on. *)
Fixpoint failedAttempts (name : string) (k n : nat) : list Event :=
  match n with
  | O => []
  | S n =>
      [EvSet (SetGauge receiverConnected name 0); EvDial k 5; EvSleep 10]
      ++ failedAttempts name (S k) n
  end.

(** Every dial in the trace comes right after the connectivity gauge was set
    to 0. *)
Fixpoint dialsAfterDisconnected (name : string) (evs : list Event) : bool :=
  match evs with
  | [] => true
  | EvDial _ _ :: _ => false
  | EvSet (SetGauge receiverConnected n v) :: EvDial _ _ :: evs =>
      String.eqb n name && (v =? 0) && dialsAfterDisconnected name evs
  | _ :: evs => dialsAfterDisconnected name evs
  end.

(** The least payload length at which [parseBlock] decodes a block of the
    given identifier, and the number of gauges it then sets; [None] for an
    identifier it does not know. *)
Definition minLength (id : Z) : option nat :=
  if id =? BlockID_PVTGeodetic then Some 67%nat
  else if id =? BlockID_MeasEpoch then Some 7%nat
  else if id =? BlockID_RFStatus then Some 9%nat
  else if id =? BlockID_ReceiverStatus then Some 16%nat
  else if id =? BlockID_QualityInd then Some 9%nat
  else if id =? BlockID_DiskStatus then Some 20%nat
  else None.

Definition fieldCount (id : Z) : nat :=
  if id =? BlockID_ReceiverStatus then 3%nat
  else if id =? BlockID_QualityInd then 3%nat
  else match minLength id with Some _ => 1%nat | None => 0%nat end.

(** [agree m s1 s2]: [s1] and [s2] have the same length and the same byte
    at every position that [m] does not mark; positions past the end of [m]
    are unmarked. *)
Fixpoint agree (m : list bool) (s1 s2 : list byte) : Prop :=
  match s1, s2 with
  | [], [] => True
  | x :: s1, y :: s2 => (hd false m = true \/ x = y) /\ agree (tl m) s1 s2
  | _, _ => False
  end.

(** ** Example data *)

(** A receiver-status payload: CPU load 42, uptime 100000 s, -5 degrees. *)
Definition statusPayload : list byte :=
  [x00; x00; x00; x00; x00; x00; x2a; xa0; x86; x01; x00;
   x07; x07; x07; x07; xfb].

(** The header fields of a frame that carries it: identifier 4014 with
    revision bits set (0x2FAE), length 24. *)
Definition statusFields : list byte := [xae; x2f; x18; x00].

(** The frame, with CRC bytes 0x12 0x34. *)
Definition statusFrame : list byte :=
  [SyncChar1; SyncChar2; x12; x34] ++ statusFields ++ statusPayload.

(** What [handleStream] passes to [parseBlock] for it, and the gauges set. *)
Definition statusCall (st : string) : Frame :=
  mkFrame BlockID_ReceiverStatus 24 statusPayload
    [SetGauge cpuLoad st 42; SetGauge uptime st 100000;
     SetGauge temperature st (-5)].

(** ** Vocabulary of the further properties *)

(** The gauges [parseBlock] sets for a block identifier, in the order of the
    [Set] calls. *)
Definition gaugesOf (id : Z) : list Gauge :=
  if id =? BlockID_PVTGeodetic then [satellitesUsed]
  else if id =? BlockID_MeasEpoch then [satellitesTracked]
  else if id =? BlockID_RFStatus then [jammingStatus]
  else if id =? BlockID_ReceiverStatus then [cpuLoad; uptime; temperature]
  else if id =? BlockID_QualityInd then
    [qualityOverall; qualitySignal; qualityRF]
  else if id =? BlockID_DiskStatus then [diskFree]
  else [].

(** The values a gauge can be set to by this program. *)
Definition valueInRange (g : Gauge) (v : Z) : Prop :=
  match g with
  | jammingStatus => v = 0 \/ v = 1 \/ v = 2
  | receiverConnected => v = 0 \/ v = 1
  | temperature => -128 <= v <= 127
  | uptime => 0 <= v < 2 ^ 32
  | diskFree => 0 <= v <= (2 ^ 32 - 1) * 1024 * 1024 /\ v mod (1024 * 1024) = 0
  | _ => 0 <= v <= 255
  end.

(** The bytes of the stream taken up by the frames of a run: each frame
    counts for the length its header announced. *)
Definition frameBytes (frames : list Frame) : Z :=
  fold_right (fun f n => frameLength f + n) 0 frames.

(** The gauge updates in a trace of the supervisor. *)
Fixpoint eventSamples (evs : list Event) : list Sample :=
  match evs with
  | [] => []
  | EvSet x :: evs => x :: eventSamples evs
  | _ :: evs => eventSamples evs
  end.

(** Among the dial attempts [k], [k+1], ..., [k+n-1], how many failed. *)
Fixpoint failures (dial : nat -> option (list byte)) (k n : nat) : nat :=
  match n with
  | O => O
  | S n =>
      (match dial k with None => 1 | Some _ => 0 end + failures dial (S k) n)%nat
  end.

(** [true] when every call of [handleStream] in the trace comes right after
    the connectivity gauge of [name] was set to 1, itself right after a
    dial. *)
Fixpoint streamsAfterConnected (name : string) (evs : list Event) : bool :=
  match evs with
  | [] => true
  | EvHandleStream _ :: _ => false
  | EvDial _ _ :: EvSet (SetGauge receiverConnected n v) :: EvHandleStream _
      :: evs =>
      String.eqb n name && (v =? 1) && streamsAfterConnected name evs
  | _ :: evs => streamsAfterConnected name evs
  end.

(** A frame as it travels: the two CRC bytes, the two identifier bytes, the
    two length bytes (each pair low byte first) and the payload. *)
Record WireFrame : Set := mkWire {
  wCRC : byte * byte;
  wID : byte * byte;
  wLen : byte * byte;
  wPayload : list byte
}.

(** The little-endian value of a pair of bytes. *)
Definition u16 (p : byte * byte) : Z := u8 (fst p) + 256 * u8 (snd p).

(** The bytes of a frame on the wire, sync pair first. *)
Definition wireBytes (w : WireFrame) : list byte :=
  SyncChar1 :: SyncChar2 ::
  fst (wCRC w) :: snd (wCRC w) :: fst (wID w) :: snd (wID w) ::
  fst (wLen w) :: snd (wLen w) :: wPayload w.

(** The length field is in range and counts the header and the payload. *)
Definition wellFramed (w : WireFrame) : Prop :=
  8 <= u16 (wLen w) <= 8192 /\
  Z.of_nat (length (wPayload w)) = u16 (wLen w) - 8.

(** The call of [parseBlock] that a frame on the wire stands for. *)
Definition wireCall (st : string) (w : WireFrame) : Frame :=
  let id := Z.land (u16 (wID w)) 0x1FFF in
  mkFrame id (u16 (wLen w)) (wPayload w)
    (match parseBlock st id (wPayload w) with
     | Some samples => samples
     | None => []
     end).

(** * Properties *)

(** ** Machine integers *)

Lemma Some_inj {A : Type} (x y : A) : Some x = Some y -> x = y.
Proof. congruence. Qed.

Lemma u8_range (b : byte) : 0 <= u8 b < 256.
Proof.
  unfold u8. pose proof (Byte.to_N_bounded b). lia.
Qed.

Lemma int8_range (b : byte) : -128 <= int8 b < 128.
Proof.
  unfold int8. pose proof (u8_range b).
  destruct (u8 b <? 128) eqn:E; [apply Z.ltb_lt in E | apply Z.ltb_ge in E]; lia.
Qed.

Lemma lor_shiftl_add (a b n : Z) :
  0 <= n -> 0 <= a < 2 ^ n -> Z.lor a (Z.shiftl b n) = a + b * 2 ^ n.
Proof.
  intros Hn Ha.
  assert (Hdisj : Z.land a (Z.shiftl b n) = 0).
  { apply Z.bits_inj'. intros k Hk.
    rewrite Z.land_spec, Z.bits_0.
    destruct (Z.lt_ge_cases k n) as [Hlt | Hge].
    - rewrite Z.shiftl_spec_low by assumption. apply andb_false_r.
    - rewrite <- (Z.mod_small a (2 ^ n)) by assumption.
      rewrite Z.mod_pow2_bits_high by lia. reflexivity. }
  rewrite <- Z.lxor_lor by assumption.
  rewrite <- Z.add_nocarry_lxor by assumption.
  rewrite Z.shiftl_mul_pow2 by assumption. reflexivity.
Qed.

Lemma Uint16_bytes (b0 b1 : byte) (tl : list byte) :
  Uint16 (b0 :: b1 :: tl) = Some (u8 b0 + 256 * u8 b1).
Proof.
  cbv [Uint16]. f_equal. pose proof (u8_range b0).
  rewrite lor_shiftl_add by lia. lia.
Qed.

Lemma Uint32_bytes (b0 b1 b2 b3 : byte) (tl : list byte) :
  Uint32 (b0 :: b1 :: b2 :: b3 :: tl) =
  Some (u8 b0 + 256 * u8 b1 + 65536 * u8 b2 + 16777216 * u8 b3).
Proof.
  pose proof (u8_range b0). pose proof (u8_range b1).
  pose proof (u8_range b2). pose proof (u8_range b3).
  cbv [Uint32]. f_equal.
  rewrite (lor_shiftl_add (u8 b0) (u8 b1) 8) by lia.
  rewrite (lor_shiftl_add _ (u8 b2) 16) by lia.
  rewrite (lor_shiftl_add _ (u8 b3) 24) by lia.
  lia.
Qed.

Lemma Uint32_range (b : list byte) (v : Z) :
  Uint32 b = Some v -> 0 <= v < 2 ^ 32.
Proof.
  destruct b as [ | b0 [ | b1 [ | b2 [ | b3 tl ] ] ] ]; try discriminate.
  rewrite Uint32_bytes. intros E. apply Some_inj in E. subst v.
  pose proof (u8_range b0). pose proof (u8_range b1).
  pose proof (u8_range b2). pose proof (u8_range b3).
  change (2 ^ 32) with 4294967296. lia.
Qed.

Lemma Uint16_range (b : list byte) (v : Z) :
  Uint16 b = Some v -> 0 <= v < 65536.
Proof.
  destruct b as [ | b0 [ | b1 tl ] ]; try discriminate.
  rewrite Uint16_bytes. intros E. apply Some_inj in E. subst v.
  pose proof (u8_range b0). pose proof (u8_range b1). lia.
Qed.

Lemma index_in_range (b : list byte) (i : nat) :
  (i < length b)%nat -> exists x, index b i = Some x.
Proof.
  intros H. unfold index.
  destruct (nth_error b i) eqn:E; [eauto | ].
  apply nth_error_None in E. lia.
Qed.

Lemma slice_in_range (b : list byte) (lo hi : nat) :
  (lo <= hi)%nat -> (hi <= length b)%nat ->
  slice b lo hi = Some (firstn (hi - lo) (skipn lo b)).
Proof.
  intros H1 H2. unfold slice.
  apply Nat.leb_le in H1, H2. rewrite H1, H2. reflexivity.
Qed.

Lemma slice_length (b c : list byte) (lo hi : nat) :
  slice b lo hi = Some c -> length c = (hi - lo)%nat.
Proof.
  unfold slice.
  destruct ((lo <=? hi)%nat && (hi <=? length b)%nat) eqn:E; [ | discriminate ].
  apply andb_true_iff in E. destruct E as [E1 E2].
  apply Nat.leb_le in E1, E2. intros [= <-].
  rewrite length_firstn, length_skipn. lia.
Qed.

Lemma Uint32_slice (b : list byte) (lo : nat) :
  (lo + 4 <= length b)%nat ->
  exists v, (c <- slice b lo (lo + 4) ;; Uint32 c) = Some v.
Proof.
  intros H. rewrite slice_in_range by lia. simpl bind.
  replace (lo + 4 - lo)%nat with 4%nat by lia.
  assert (L : length (firstn 4 (skipn lo b)) = 4%nat)
    by (rewrite length_firstn, length_skipn; lia).
  destruct (firstn 4 (skipn lo b)) as [ | b0 [ | b1 [ | b2 [ | b3 tl ] ] ] ];
    try discriminate.
  eexists. reflexivity.
Qed.

(** ** The block decoder *)

Ltac guard_facts :=
  repeat match goal with
  | H : (_ <=? _)%nat = true |- _ => apply Nat.leb_le in H
  | H : (_ <=? _)%nat = false |- _ => apply Nat.leb_gt in H
  | H : (_ <? _)%nat = true |- _ => apply Nat.ltb_lt in H
  | H : (_ <? _)%nat = false |- _ => apply Nat.ltb_ge in H
  end.

Ltac id_facts :=
  repeat match goal with
  | H : (_ =? _) = true |- _ => apply Z.eqb_eq in H
  | H : (_ =? _) = false |- _ => apply Z.eqb_neq in H
  end;
  unfold BlockID_PVTGeodetic, BlockID_ReceiverStatus, BlockID_MeasEpoch,
    BlockID_DiskStatus, BlockID_QualityInd, BlockID_RFStatus in *.

(** Under the guard of its block, every index of [parseBlock] is in range. *)
Ltac read_index p i :=
  let x := fresh "x" in
  let E := fresh "E" in
  destruct (index_in_range p i) as [x E]; [ lia | rewrite E; cbn [bind] ].

Ltac read_u32 p lo :=
  let v := fresh "v" in
  let E := fresh "E" in
  destruct (Uint32_slice p lo) as [v E];
  [ lia | simpl (lo + 4)%nat in E; rewrite E; cbn [bind] ].

Lemma parseBlock_ReceiverStatus (st : string) (payload : list byte) :
  parseBlock st BlockID_ReceiverStatus payload =
  if (16 <=? length payload)%nat then
    cpu <- index payload 6 ;;
    up <- (b <- slice payload 7 11 ;; Uint32 b) ;;
    temp <- index payload 15 ;;
    Some [SetGauge cpuLoad st (u8 cpu);
          SetGauge uptime st up;
          SetGauge temperature st (int8 temp)]
  else Some [].
Proof. reflexivity. Qed.

Lemma parseBlock_RFStatus (st : string) (payload : list byte) :
  parseBlock st BlockID_RFStatus payload =
  if (8 <? length payload)%nat then
    flags <- index payload 8 ;;
    Some [SetGauge jammingStatus st
            (if negb (Z.land (u8 flags) 2 =? 0) then 2
             else if negb (Z.land (u8 flags) 1 =? 0) then 1 else 0)]
  else Some [].
Proof. reflexivity. Qed.

Lemma parseBlock_DiskStatus (st : string) (payload : list byte) :
  parseBlock st BlockID_DiskStatus payload =
  if (20 <=? length payload)%nat then
    capacityMB <- (b <- slice payload 9 13 ;; Uint32 b) ;;
    usedMB <- (b <- slice payload 13 17 ;; Uint32 b) ;;
    Some [SetGauge diskFree st (sub32 capacityMB usedMB * 1024 * 1024)]
  else Some [].
Proof. reflexivity. Qed.

(** [parseBlock] never panics: whatever the identifier and the payload, it
    returns its list of gauge updates. *)
Lemma parseBlock_no_panic (st : string) (id : Z) (payload : list byte) :
  exists samples, parseBlock st id payload = Some samples.
Proof.
  unfold parseBlock.
  repeat match goal with
  | |- context [if ?c then _ else _] => destruct c eqn:?
  end; guard_facts; try (eexists; reflexivity).
  - read_index payload 66%nat. eauto.
  - read_index payload 6%nat. eauto.
  - read_index payload 8%nat. eauto.
  - read_index payload 6%nat. read_u32 payload 7%nat.
    read_index payload 15%nat. eauto.
  - read_index payload 6%nat. read_index payload 7%nat.
    read_index payload 8%nat. eauto.
  - read_u32 payload 9%nat. read_u32 payload 13%nat. eauto.
Qed.

(** C1, the claim as stated, fails.  An 11-byte receiver-status payload holds
    the CPU-load byte (offset 6) and the four uptime bytes (offsets 7 to 10),
    yet [parseBlock] sets no gauge at all: the three fields of the block share
    the single guard [len(payload) >= 16]. *)
Lemma receiver_status_11_bytes_decodes_nothing :
  let payload := [x00; x00; x00; x00; x00; x00; x2a; xa0; x86; x01; x00] in
  (11 <= length payload < 16)%nat /\
  index payload 6 = Some x2a /\
  (b <- slice payload 7 11 ;; Uint32 b) = Some 100000 /\
  parseBlock "rover-1" BlockID_ReceiverStatus payload = Some [] /\
  parseBlock "rover-1" BlockID_ReceiverStatus payload <>
    Some [SetGauge cpuLoad "rover-1" 42; SetGauge uptime "rover-1" 100000].
Proof.
  cbv zeta. repeat split; try (vm_compute; lia); try reflexivity.
  discriminate.
Qed.

(** C1, amended: the field extractions of a block are guarded by one
    minimum-length check per block type (67 bytes for PVTGeodetic, 7 for
    MeasEpoch, 9 for RFStatus, 16 for ReceiverStatus, 9 for QualityInd, 20 for
    DiskStatus).  A payload below its type's minimum sets no gauge for that
    frame, without error; a payload that reaches it sets every gauge of the
    type.  So a receiver-status payload shorter than 16 bytes decodes nothing,
    CPU load and uptime included. *)
Theorem parseBlock_one_guard_per_block
    (st : string) (id : Z) (payload : list byte) (m : nat) :
  minLength id = Some m ->
  ((length payload < m)%nat -> parseBlock st id payload = Some []) /\
  ((m <= length payload)%nat ->
   exists samples, parseBlock st id payload = Some samples /\
                   length samples = fieldCount id).
Proof.
  unfold minLength, fieldCount, minLength, parseBlock.
  repeat match goal with
  | |- context [if ?c then _ else _] => destruct c eqn:?
  end; try discriminate; intros Hm; apply Some_inj in Hm; subst m;
  guard_facts; id_facts; try lia;
  (split; intros Hlen; try lia; try reflexivity).
  - read_index payload 66%nat. eexists; split; reflexivity.
  - read_index payload 6%nat. eexists; split; reflexivity.
  - read_index payload 8%nat. eexists; split; reflexivity.
  - read_index payload 6%nat. read_u32 payload 7%nat.
    read_index payload 15%nat. eexists; split; reflexivity.
  - read_index payload 6%nat. read_index payload 7%nat.
    read_index payload 8%nat. eexists; split; reflexivity.
  - read_u32 payload 9%nat. read_u32 payload 13%nat. eexists; split; reflexivity.
Qed.

Lemma parseBlock_one_guard_per_block_witness :
  parseBlock "rover-1" BlockID_ReceiverStatus
    [x00; x00; x00; x00; x00; x00; x2a; xa0; x86; x01; x00] = Some [].
Proof.
  apply (proj1 (parseBlock_one_guard_per_block "rover-1"
                  BlockID_ReceiverStatus
                  [x00; x00; x00; x00; x00; x00; x2a; xa0; x86; x01; x00]
                  16 eq_refl)).
  simpl. lia.
Defined.

(** C4: for an RF-status frame with a payload of at least 9 bytes, the
    jamming state is 2 when bit 1 of the byte at offset 8 is set (whatever
    bit 0), else 1 when bit 0 is set, else 0. *)
Theorem jamming_state_of_flags
    (st : string) (payload : list byte) (flags : byte) :
  (9 <= length payload)%nat ->
  index payload 8 = Some flags ->
  parseBlock st BlockID_RFStatus payload =
  Some [SetGauge jammingStatus st
          (if Z.testbit (u8 flags) 1 then 2
           else if Z.testbit (u8 flags) 0 then 1 else 0)].
Proof.
  intros Hlen Hflags. rewrite parseBlock_RFStatus.
  replace (8 <? length payload)%nat with true
    by (symmetry; apply Nat.ltb_lt; lia).
  rewrite Hflags. cbn [bind]. do 3 f_equal.
  destruct flags; reflexivity.
Qed.

(** Byte 8 equal to 0x03 (both bits set) decodes jamming state 2. *)
Lemma jamming_state_of_flags_witness :
  parseBlock "rover-1" BlockID_RFStatus
    [x00; x00; x00; x00; x00; x00; x00; x00; x03] =
  Some [SetGauge jammingStatus "rover-1" 2].
Proof.
  apply (jamming_state_of_flags "rover-1"
           [x00; x00; x00; x00; x00; x00; x00; x00; x03] x03).
  - simpl. lia.
  - reflexivity.
Defined.

(** C5: a receiver-status payload of at least 16 bytes with byte 42 at
    offset 6, the little-endian bytes of 100000 at offsets 7 to 10 and the
    byte of -5 (0xFB) at offset 15 sets, for the station of the stream,
    exactly cpuLoad = 42, uptime = 100000 and temperature = -5. *)
Theorem receiver_status_round_trip (st : string) (payload : list byte) :
  (16 <= length payload)%nat ->
  index payload 6 = Some x2a ->
  slice payload 7 11 = Some [xa0; x86; x01; x00] ->
  index payload 15 = Some xfb ->
  parseBlock st BlockID_ReceiverStatus payload =
  Some [SetGauge cpuLoad st 42;
        SetGauge uptime st 100000;
        SetGauge temperature st (-5)].
Proof.
  intros Hlen Hcpu Hup Htemp. rewrite parseBlock_ReceiverStatus.
  replace (16 <=? length payload)%nat with true
    by (symmetry; apply Nat.leb_le; lia).
  rewrite Hcpu, Hup, Htemp. reflexivity.
Qed.

Lemma receiver_status_round_trip_witness :
  parseBlock "rover-1" BlockID_ReceiverStatus
    [x00; x00; x00; x00; x00; x00; x2a; xa0; x86; x01; x00;
     x07; x07; x07; x07; xfb] =
  Some [SetGauge cpuLoad "rover-1" 42;
        SetGauge uptime "rover-1" 100000;
        SetGauge temperature "rover-1" (-5)].
Proof.
  apply receiver_status_round_trip.
  - simpl. lia.
  - reflexivity.
  - reflexivity.
  - reflexivity.
Defined.

(** C6: for a disk-status payload of at least 20 bytes the free-space gauge
    is set to [(capacity - used) * 1024 * 1024], capacity and used being the
    little-endian [uint32] at offsets 9 and 13 and the difference being taken
    on [uint32], as the code takes it; it is the plain difference whenever
    used does not exceed capacity. *)
Theorem disk_free_bytes
    (st : string) (payload : list byte) (capacity used : Z) :
  (20 <= length payload)%nat ->
  (b <- slice payload 9 13 ;; Uint32 b) = Some capacity ->
  (b <- slice payload 13 17 ;; Uint32 b) = Some used ->
  parseBlock st BlockID_DiskStatus payload =
    Some [SetGauge diskFree st (sub32 capacity used * 1024 * 1024)] /\
  (used <= capacity ->
   parseBlock st BlockID_DiskStatus payload =
     Some [SetGauge diskFree st ((capacity - used) * 1024 * 1024)]).
Proof.
  intros Hlen Hcap Hused.
  assert (Hrun : parseBlock st BlockID_DiskStatus payload =
                 Some [SetGauge diskFree st
                         (sub32 capacity used * 1024 * 1024)]).
  { rewrite parseBlock_DiskStatus.
    replace (20 <=? length payload)%nat with true
      by (symmetry; apply Nat.leb_le; lia).
    rewrite Hcap, Hused. reflexivity. }
  split; [exact Hrun | ].
  intros Hle. rewrite Hrun. do 3 f_equal.
  destruct (slice payload 9 13) as [bc | ]; [ | discriminate ].
  destruct (slice payload 13 17) as [bu | ]; [ | discriminate ].
  cbn [bind] in Hcap, Hused.
  apply Uint32_range in Hcap, Hused.
  change (2 ^ 32) with 4294967296 in *.
  unfold sub32. change (2 ^ 32) with 4294967296.
  rewrite Z.mod_small by lia. reflexivity.
Qed.

(** Capacity 1000 MB and used 400 MB decode to 600 * 1024 * 1024 bytes. *)
Lemma disk_free_bytes_witness :
  parseBlock "rover-1" BlockID_DiskStatus
    [x00; x00; x00; x00; x00; x00; x01; x00; x01;
     xe8; x03; x00; x00;  x90; x01; x00; x00;  x00; x00; x00] =
  Some [SetGauge diskFree "rover-1" (600 * 1024 * 1024)].
Proof.
  apply (disk_free_bytes "rover-1"
           [x00; x00; x00; x00; x00; x00; x01; x00; x01;
            xe8; x03; x00; x00;  x90; x01; x00; x00;  x00; x00; x00]
           1000 400).
  - simpl. lia.
  - reflexivity.
  - reflexivity.
  - lia.
Defined.

(** C10: the difference is taken on [uint32] before the conversion.  When
    the used field exceeds the capacity field it wraps: the gauge is set to
    [((capacity - used) mod 2^32) * 1024 * 1024], which is
    [(2^32 - (used - capacity)) * 1024 * 1024], a large positive number, and
    neither negative nor zero. *)
Theorem disk_free_wraps
    (st : string) (payload : list byte) (capacity used : Z) :
  (20 <= length payload)%nat ->
  (b <- slice payload 9 13 ;; Uint32 b) = Some capacity ->
  (b <- slice payload 13 17 ;; Uint32 b) = Some used ->
  capacity < used ->
  exists free,
    parseBlock st BlockID_DiskStatus payload =
      Some [SetGauge diskFree st free] /\
    free = ((capacity - used) mod 2 ^ 32) * 1024 * 1024 /\
    free = (2 ^ 32 - (used - capacity)) * 1024 * 1024 /\
    1024 * 1024 <= free.
Proof.
  intros Hlen Hcap Hused Hlt.
  exists (sub32 capacity used * 1024 * 1024).
  split.
  { rewrite parseBlock_DiskStatus.
    replace (20 <=? length payload)%nat with true
      by (symmetry; apply Nat.leb_le; lia).
    rewrite Hcap, Hused. reflexivity. }
  destruct (slice payload 9 13) as [bc | ]; [ | discriminate ].
  destruct (slice payload 13 17) as [bu | ]; [ | discriminate ].
  cbn [bind] in Hcap, Hused.
  apply Uint32_range in Hcap, Hused.
  unfold sub32. change (2 ^ 32) with 4294967296 in *.
  assert (Hwrap : (capacity - used) mod 4294967296 =
                  4294967296 - (used - capacity)).
  { symmetry. apply (Z.mod_unique _ _ (-1)); lia. }
  rewrite Hwrap. repeat split; lia.
Qed.

(** Capacity 400 MB and used 1000 MB: the gauge shows
    (2^32 - 600) * 2^20 bytes. *)
Lemma disk_free_wraps_witness :
  exists free,
    parseBlock "rover-1" BlockID_DiskStatus
      [x00; x00; x00; x00; x00; x00; x01; x00; x01;
       x90; x01; x00; x00;  xe8; x03; x00; x00;  x00; x00; x00] =
      Some [SetGauge diskFree "rover-1" free] /\
    free = ((400 - 1000) mod 2 ^ 32) * 1024 * 1024 /\
    free = (2 ^ 32 - (1000 - 400)) * 1024 * 1024 /\
    1024 * 1024 <= free.
Proof.
  apply (disk_free_wraps "rover-1"
           [x00; x00; x00; x00; x00; x00; x01; x00; x01;
            x90; x01; x00; x00;  xe8; x03; x00; x00;  x00; x00; x00]
           400 1000).
  - simpl. lia.
  - reflexivity.
  - reflexivity.
  - lia.
Defined.

(** ** The stream handler: fuel and unfolding *)

Lemma eqb_neq (b c : byte) : b <> c -> Byte.eqb b c = false.
Proof.
  intros H. destruct (Byte.eqb b c) eqn:E; [ | reflexivity ].
  apply Byte.byte_dec_bl in E. contradiction.
Qed.

Lemma eqb_refl (b : byte) : Byte.eqb b b = true.
Proof. apply Byte.byte_dec_lb. reflexivity. Qed.

Lemma ReadFull_Some (reader : list byte) (n : nat) (buf rest : list byte) :
  ReadFull reader n = Some (buf, rest) ->
  reader = buf ++ rest /\ length buf = n.
Proof.
  unfold ReadFull. destruct (n <=? length reader)%nat eqn:E; [ | discriminate ].
  apply Nat.leb_le in E. intros H. apply Some_inj in H.
  inversion H; subst. split.
  - symmetry. apply firstn_skipn.
  - rewrite length_firstn. lia.
Qed.

Lemma ReadFull_None (reader : list byte) (n : nat) :
  ReadFull reader n = None -> (length reader < n)%nat.
Proof.
  unfold ReadFull. destruct (n <=? length reader)%nat eqn:E; [ discriminate | ].
  apply Nat.leb_gt in E. intros _. exact E.
Qed.

Lemma ReadFull_app (buf rest : list byte) :
  ReadFull (buf ++ rest) (length buf) = Some (buf, rest).
Proof.
  unfold ReadFull. rewrite length_app.
  replace (length buf <=? length buf + length rest)%nat with true
    by (symmetry; apply Nat.leb_le; lia).
  rewrite firstn_app, Nat.sub_diag, firstn_all, skipn_app, Nat.sub_diag,
    skipn_all. simpl. rewrite app_nil_r. reflexivity.
Qed.

Lemma ReadFull_short (reader : list byte) (n : nat) :
  (length reader < n)%nat -> ReadFull reader n = None.
Proof.
  intros H. unfold ReadFull. apply Nat.leb_gt in H. rewrite H. reflexivity.
Qed.

(** The loop body calls the next iteration only on a strictly shorter
    stream. *)
Lemma handleStream_body_ext (st : string) (k1 k2 : list byte -> Result)
    (s : list byte) :
  (forall s', (length s' < length s)%nat -> k1 s' = k2 s') ->
  handleStream_body st k1 s = handleStream_body st k2 s.
Proof.
  intros H. unfold handleStream_body.
  destruct s as [ | b s ]; [ reflexivity | ].
  destruct (negb (Byte.eqb b SyncChar1)); [ apply H; simpl; lia | ].
  destruct s as [ | b' s ]; [ reflexivity | ].
  destruct (negb (Byte.eqb b' SyncChar2)); [ apply H; simpl; lia | ].
  destruct (ReadFull s 6) as [ [hdr rd] | ] eqn:Ehdr; [ | reflexivity ].
  apply ReadFull_Some in Ehdr. destruct Ehdr as [-> Hhdr].
  destruct (b0 <- slice ([x00; x00] ++ hdr) 4 6 ;; Uint16 b0) as [ idRaw | ];
    [ | reflexivity ].
  destruct (b0 <- slice ([x00; x00] ++ hdr) 6 8 ;; Uint16 b0) as [ len | ];
    [ | reflexivity ].
  cbv zeta.
  destruct ((len <? 8) || (len >? 8192)).
  { apply H. simpl. rewrite length_app. lia. }
  destruct (ReadFull rd (Z.to_nat (len - 8))) as [ [payload rd'] | ] eqn:Epl;
    [ | reflexivity ].
  apply ReadFull_Some in Epl. destruct Epl as [-> Hpl].
  destruct (parseBlock st (Z.land idRaw 8191) payload); [ | reflexivity ].
  rewrite H; [ reflexivity | ].
  simpl. rewrite !length_app. lia.
Qed.

Lemma handleStream_fuel_enough (st : string) (f1 f2 : nat) (s : list byte) :
  (length s < f1)%nat -> (length s < f2)%nat ->
  handleStream_fuel f1 st s = handleStream_fuel f2 st s.
Proof.
  revert f2 s. induction f1 as [ | f1 IH ]; intros f2 s H1 H2; [ lia | ].
  destruct f2 as [ | f2 ]; [ lia | ].
  simpl. apply handleStream_body_ext.
  intros s' Hs'. apply IH; lia.
Qed.

(** [handleStream] is a fixed point of its loop body. *)
Lemma handleStream_unfold (st : string) (s : list byte) :
  handleStream st s = handleStream_body st (handleStream st) s.
Proof.
  unfold handleStream at 1. simpl handleStream_fuel.
  apply handleStream_body_ext.
  intros s' Hs'. apply handleStream_fuel_enough; lia.
Qed.

Lemma handleStream_nil (st : string) : handleStream st [] = ([], Return).
Proof. reflexivity. Qed.

Lemma handleStream_skip (st : string) (b : byte) (s : list byte) :
  b <> SyncChar1 -> handleStream st (b :: s) = handleStream st s.
Proof.
  intros H. rewrite handleStream_unfold at 1. unfold handleStream_body.
  rewrite (eqb_neq _ _ H). reflexivity.
Qed.

Lemma handleStream_sync1_eof (st : string) :
  handleStream st [SyncChar1] = ([], Return).
Proof. reflexivity. Qed.

Lemma handleStream_sync_fail (st : string) (b : byte) (s : list byte) :
  b <> SyncChar2 -> handleStream st (SyncChar1 :: b :: s) = handleStream st s.
Proof.
  intros H. rewrite handleStream_unfold at 1. unfold handleStream_body.
  rewrite eqb_refl, (eqb_neq _ _ H). reflexivity.
Qed.

Lemma handleStream_short_header (st : string) (s : list byte) :
  (length s < 6)%nat ->
  handleStream st (SyncChar1 :: SyncChar2 :: s) = ([], Return).
Proof.
  intros H. rewrite handleStream_unfold at 1. unfold handleStream_body.
  rewrite !eqb_refl, (ReadFull_short _ _ H). reflexivity.
Qed.

(** After a sync pair and six more bytes: the header fields and what the
    loop does with them. *)
Lemma handleStream_header (st : string) (c1 c2 i1 i2 l1 l2 : byte)
    (s : list byte) :
  handleStream st
    (SyncChar1 :: SyncChar2 :: c1 :: c2 :: i1 :: i2 :: l1 :: l2 :: s) =
  match Uint16 [i1; i2], Uint16 [l1; l2] with
  | Some idRaw, Some len =>
      if (len <? 8) || (len >? 8192) then handleStream st s
      else
        match ReadFull s (Z.to_nat (len - 8)) with
        | None => ([], Return)
        | Some (payload, rd) =>
            match parseBlock st (Z.land idRaw 0x1FFF) payload with
            | None => ([], Panic)
            | Some samples =>
                emit (mkFrame (Z.land idRaw 0x1FFF) len payload samples)
                     (handleStream st rd)
            end
        end
  | _, _ => ([], Panic)
  end.
Proof.
  etransitivity; [ apply handleStream_unfold | reflexivity ].
Qed.

(** Induction along the iterations of the loop: one case for each way an
    iteration can end. *)
Lemma handleStream_induction (st : string)
    (P : list byte -> Result -> Prop) :
  P [] ([], Return) ->
  (forall b s, b <> SyncChar1 ->
     P s (handleStream st s) -> P (b :: s) (handleStream st s)) ->
  P [SyncChar1] ([], Return) ->
  (forall b s, b <> SyncChar2 ->
     P s (handleStream st s) -> P (SyncChar1 :: b :: s) (handleStream st s)) ->
  (forall s, (length s < 6)%nat ->
     P (SyncChar1 :: SyncChar2 :: s) ([], Return)) ->
  (forall c1 c2 i1 i2 l1 l2 s len,
     Uint16 [l1; l2] = Some len -> len < 8 \/ 8192 < len ->
     P s (handleStream st s) ->
     P (SyncChar1 :: SyncChar2 :: c1 :: c2 :: i1 :: i2 :: l1 :: l2 :: s)
       (handleStream st s)) ->
  (forall c1 c2 i1 i2 l1 l2 s len,
     Uint16 [l1; l2] = Some len -> 8 <= len <= 8192 ->
     (length s < Z.to_nat (len - 8))%nat ->
     P (SyncChar1 :: SyncChar2 :: c1 :: c2 :: i1 :: i2 :: l1 :: l2 :: s)
       ([], Return)) ->
  (forall c1 c2 i1 i2 l1 l2 payload s idRaw len samples,
     Uint16 [i1; i2] = Some idRaw -> Uint16 [l1; l2] = Some len ->
     8 <= len <= 8192 -> length payload = Z.to_nat (len - 8) ->
     parseBlock st (Z.land idRaw 0x1FFF) payload = Some samples ->
     P s (handleStream st s) ->
     P (SyncChar1 :: SyncChar2 :: c1 :: c2 :: i1 :: i2 :: l1 :: l2 ::
          payload ++ s)
       (emit (mkFrame (Z.land idRaw 0x1FFF) len payload samples)
             (handleStream st s))) ->
  forall s, P s (handleStream st s).
Proof.
  intros Hnil Hskip Heof Hfail Hshort Hbad Htrunc Hframe.
  assert (H : forall n s, (length s < n)%nat -> P s (handleStream st s)).
  { induction n as [ | n IH ]; intros s Hn; [ lia | ].
    destruct s as [ | b s ]; [ exact Hnil | ].
    simpl in Hn.
    destruct (Byte.eqb b SyncChar1) eqn:E1.
    2:{ apply Byte.eqb_false in E1. rewrite handleStream_skip by assumption.
        apply Hskip; [ assumption | apply IH; lia ]. }
    apply Byte.byte_dec_bl in E1. subst b.
    destruct s as [ | b s ]; [ exact Heof | ].
    simpl in Hn.
    destruct (Byte.eqb b SyncChar2) eqn:E2.
    2:{ apply Byte.eqb_false in E2.
        rewrite handleStream_sync_fail by assumption.
        apply Hfail; [ assumption | apply IH; lia ]. }
    apply Byte.byte_dec_bl in E2. subst b.
    destruct (le_lt_dec 6 (length s)) as [Hlen | Hlen].
    2:{ rewrite handleStream_short_header by assumption.
        apply Hshort. assumption. }
    destruct s as [ | c1 [ | c2 [ | i1 [ | i2 [ | l1 [ | l2 s ] ] ] ] ] ];
      simpl in Hlen; try lia.
    simpl in Hn.
    rewrite handleStream_header.
    destruct (Uint16 [i1; i2]) as [ idRaw | ] eqn:Eid;
      [ | unfold Uint16 in Eid; discriminate ].
    destruct (Uint16 [l1; l2]) as [ len | ] eqn:Elen;
      [ | unfold Uint16 in Elen; discriminate ].
    destruct ((len <? 8) || (len >? 8192)) eqn:Erange.
    { apply Hbad with (len := len); [ assumption | | apply IH; lia ].
      apply orb_true_iff in Erange. destruct Erange as [E | E].
      - apply Z.ltb_lt in E. lia.
      - rewrite Z.gtb_ltb in E. apply Z.ltb_lt in E. lia. }
    apply orb_false_iff in Erange. destruct Erange as [Elo Ehi].
    apply Z.ltb_ge in Elo. rewrite Z.gtb_ltb in Ehi. apply Z.ltb_ge in Ehi.
    destruct (ReadFull s (Z.to_nat (len - 8))) as [ [payload rd] | ] eqn:Epl.
    2:{ apply ReadFull_None in Epl.
        apply Htrunc with (len := len); [ assumption | lia | assumption ]. }
    apply ReadFull_Some in Epl. destruct Epl as [-> Hpl].
    destruct (parseBlock_no_panic st (Z.land idRaw 0x1FFF) payload)
      as [samples Hsamples].
    rewrite Hsamples.
    apply Hframe; try assumption; [ lia | ].
    apply IH. rewrite length_app in Hn. lia. }
  intros s. apply (H (S (length s))). lia.
Qed.

(** [handleStream] returns on every finite stream: it neither panics nor
    loops. *)
Lemma handleStream_returns (st : string) (s : list byte) :
  snd (handleStream st s) = Return.
Proof.
  apply (handleStream_induction st (fun _ r => snd r = Return));
    intros; simpl; auto.
Qed.

Lemma hasMarker_tail (b : byte) (s : list byte) :
  hasMarker (b :: s) = false -> hasMarker s = false.
Proof.
  destruct s as [ | b' s ]; [ reflexivity | ].
  intros H. change (hasMarker (b :: b' :: s)) with
    ((Byte.eqb b SyncChar1 && Byte.eqb b' SyncChar2) || hasMarker (b' :: s)) in H.
  apply orb_false_iff in H. tauto.
Qed.

Lemma hasMarker_head (s : list byte) :
  hasMarker (SyncChar1 :: SyncChar2 :: s) = true.
Proof. reflexivity. Qed.

(** A stream without a sync pair yields no frame, and the handler returns
    when it ends. *)
Lemma handleStream_no_marker (st : string) (s : list byte) :
  hasMarker s = false -> handleStream st s = ([], Return).
Proof.
  apply (handleStream_induction st
           (fun s r => hasMarker s = false -> r = ([], Return)));
    try (intros; reflexivity);
    try (intros; match goal with
                 | H : hasMarker (SyncChar1 :: SyncChar2 :: _) = false |- _ =>
                     rewrite hasMarker_head in H; discriminate
                 end).
  - intros b s' _ IH H. apply IH. eapply hasMarker_tail. eassumption.
  - intros b s' _ IH H. apply IH.
    eapply hasMarker_tail. eapply hasMarker_tail. eassumption.
Qed.

(** ** The stream handler: frames *)

(** A header with a length in range, followed by the [length - 8] payload
    bytes it announces: the payload goes to [parseBlock] under the identifier
    masked to 13 bits, and the loop goes on after the payload. *)
Lemma handleStream_frame (st : string) (c1 c2 i1 i2 l1 l2 : byte)
    (payload rest : list byte) (idRaw len : Z) :
  Uint16 [i1; i2] = Some idRaw ->
  Uint16 [l1; l2] = Some len ->
  8 <= len <= 8192 ->
  length payload = Z.to_nat (len - 8) ->
  exists samples,
    parseBlock st (Z.land idRaw 0x1FFF) payload = Some samples /\
    handleStream st
      (SyncChar1 :: SyncChar2 :: c1 :: c2 :: i1 :: i2 :: l1 :: l2 ::
       payload ++ rest) =
    emit (mkFrame (Z.land idRaw 0x1FFF) len payload samples)
         (handleStream st rest).
Proof.
  intros Hid Hlen Hok Hpl.
  destruct (parseBlock_no_panic st (Z.land idRaw 0x1FFF) payload)
    as [samples Hsamples].
  exists samples. split; [ assumption | ].
  rewrite handleStream_header, Hid, Hlen.
  replace ((len <? 8) || (len >? 8192)) with false.
  2:{ symmetry. apply orb_false_iff. rewrite Z.gtb_ltb.
      split; apply Z.ltb_ge; lia. }
  rewrite <- Hpl, ReadFull_app, Hsamples. reflexivity.
Qed.

(** C2: every frame [handleStream] hands to [parseBlock] comes from a header
    with 8 <= length <= 8192, and its payload buffer has exactly
    [length - 8] bytes; the gauges set for it are those of [parseBlock] on
    that buffer. *)
Theorem frame_payload_length (st : string) (s : list byte) (f : Frame) :
  In f (fst (handleStream st s)) ->
  8 <= frameLength f <= 8192 /\
  Z.of_nat (length (framePayload f)) = frameLength f - 8 /\
  parseBlock st (frameID f) (framePayload f) = Some (frameSamples f).
Proof.
  revert f.
  apply (handleStream_induction st
           (fun _ r => forall f, In f (fst r) -> _));
    try (intros; simpl in *; contradiction);
    try (intros; auto).
  match goal with H : In _ (fst (emit _ _)) |- _ => destruct H as [<- | H] end.
  - simpl. repeat split; try lia; assumption.
  - auto.
Qed.

Lemma frame_payload_length_witness :
  8 <= 24 <= 8192 /\
  Z.of_nat (length statusPayload) = 24 - 8 /\
  parseBlock "rover-1" BlockID_ReceiverStatus statusPayload =
    Some (frameSamples (statusCall "rover-1")).
Proof.
  apply (frame_payload_length "rover-1" (x00 :: statusFrame ++ [x00])
           (statusCall "rover-1")).
  vm_compute. left. reflexivity.
Defined.

(** C3: a header whose length field is below 8 or above 8192 yields no frame
    and no payload read: the handler goes on exactly as it does on the bytes
    that follow the eight header bytes, and it returns normally. *)
Theorem invalid_length_resumes_after_header
    (st : string) (c1 c2 i1 i2 l1 l2 : byte) (rest : list byte) (len : Z) :
  Uint16 [l1; l2] = Some len ->
  len < 8 \/ 8192 < len ->
  handleStream st
    (SyncChar1 :: SyncChar2 :: c1 :: c2 :: i1 :: i2 :: l1 :: l2 :: rest) =
    handleStream st rest /\
  snd (handleStream st
         (SyncChar1 :: SyncChar2 :: c1 :: c2 :: i1 :: i2 :: l1 :: l2 :: rest)) =
    Return.
Proof.
  intros Hlen Hbad. split; [ | apply handleStream_returns ].
  rewrite handleStream_header, Hlen.
  destruct (Uint16 [i1; i2]) as [ idRaw | ] eqn:Eid;
    [ | unfold Uint16 in Eid; discriminate ].
  replace ((len <? 8) || (len >? 8192)) with true; [ reflexivity | ].
  symmetry. apply orb_true_iff. rewrite Z.gtb_ltb.
  destruct Hbad; [ left | right ]; apply Z.ltb_lt; assumption.
Qed.

(** A header that announces 7 bytes, then a good frame: the frame that
    follows is decoded. *)
Lemma invalid_length_resumes_after_header_witness :
  handleStream "rover-1"
    (SyncChar1 :: SyncChar2 :: x12 :: x34 :: xae :: x0f :: x07 :: x00 ::
     statusFrame) =
    ([statusCall "rover-1"], Return) /\
  snd (handleStream "rover-1"
    (SyncChar1 :: SyncChar2 :: x12 :: x34 :: xae :: x0f :: x07 :: x00 ::
     statusFrame)) = Return.
Proof.
  change ([statusCall "rover-1"], Return)
    with (handleStream "rover-1" statusFrame).
  apply (invalid_length_resumes_after_header "rover-1"
           x12 x34 xae x0f x07 x00 statusFrame 7).
  - reflexivity.
  - left. lia.
Defined.

(** C7: when the first sync character is followed by another byte, the scan
    goes on after that byte, which is never looked at as a first sync
    character.  So when that byte starts the only sync pair of the stream, no
    frame is found. *)
Theorem failed_second_byte_is_consumed
    (st : string) (b : byte) (rest : list byte) :
  b <> SyncChar2 ->
  handleStream st (SyncChar1 :: b :: rest) = handleStream st rest /\
  (forall rest', b = SyncChar1 -> rest = SyncChar2 :: rest' ->
     hasMarker rest' = false ->
     handleStream st (SyncChar1 :: b :: rest) = ([], Return)).
Proof.
  intros Hb. split.
  - apply handleStream_sync_fail. assumption.
  - intros rest' -> -> Hrest.
    rewrite handleStream_sync_fail by assumption.
    rewrite handleStream_skip by discriminate.
    apply handleStream_no_marker. assumption.
Qed.

(** The frame that is decoded when the scan starts on it is lost when one
    more [$] comes before it. *)
Lemma failed_second_byte_is_consumed_witness :
  handleStream "rover-1" statusFrame = ([statusCall "rover-1"], Return) /\
  handleStream "rover-1" (SyncChar1 :: statusFrame) = ([], Return).
Proof.
  split; [ reflexivity | ].
  apply (proj2 (failed_second_byte_is_consumed "rover-1" SyncChar1
                  (tl statusFrame) ltac:(discriminate))
           (tl (tl statusFrame)));
    reflexivity.
Defined.

(** ** The checksum bytes *)

Lemma checksumMask_body_ext (k1 k2 : list byte -> list bool) (s : list byte) :
  (forall s', (length s' < length s)%nat -> k1 s' = k2 s') ->
  checksumMask_body k1 s = checksumMask_body k2 s.
Proof.
  intros H. unfold checksumMask_body.
  destruct s as [ | b s ]; [ reflexivity | ].
  destruct (negb (Byte.eqb b SyncChar1));
    [ f_equal; apply H; simpl; lia | ].
  destruct s as [ | b' s ]; [ reflexivity | ].
  destruct (negb (Byte.eqb b' SyncChar2));
    [ do 2 f_equal; apply H; simpl; lia | ].
  destruct (ReadFull s 6) as [ [hdr rd] | ] eqn:Ehdr; [ | reflexivity ].
  apply ReadFull_Some in Ehdr. destruct Ehdr as [-> Hhdr].
  cbv zeta. f_equal.
  destruct (b0 <- slice ([x00; x00] ++ hdr) 6 8 ;; Uint16 b0) as [ len | ];
    [ | reflexivity ].
  destruct ((len <? 8) || (len >? 8192)).
  { apply H. simpl. rewrite length_app. lia. }
  destruct (ReadFull rd (Z.to_nat (len - 8))) as [ [payload rd'] | ] eqn:Epl;
    [ | reflexivity ].
  apply ReadFull_Some in Epl. destruct Epl as [-> Hpl].
  f_equal. apply H. simpl. rewrite !length_app. lia.
Qed.

Lemma checksumMask_fuel_enough (f1 f2 : nat) (s : list byte) :
  (length s < f1)%nat -> (length s < f2)%nat ->
  checksumMask_fuel f1 s = checksumMask_fuel f2 s.
Proof.
  revert f2 s. induction f1 as [ | f1 IH ]; intros f2 s H1 H2; [ lia | ].
  destruct f2 as [ | f2 ]; [ lia | ].
  simpl. apply checksumMask_body_ext.
  intros s' Hs'. apply IH; lia.
Qed.

Lemma checksumMask_unfold (s : list byte) :
  checksumMask s = checksumMask_body checksumMask s.
Proof.
  unfold checksumMask at 1. simpl checksumMask_fuel.
  apply checksumMask_body_ext.
  intros s' Hs'. apply checksumMask_fuel_enough; lia.
Qed.

Lemma checksumMask_skip (b : byte) (s : list byte) :
  b <> SyncChar1 -> checksumMask (b :: s) = false :: checksumMask s.
Proof.
  intros H. rewrite checksumMask_unfold at 1. unfold checksumMask_body.
  rewrite (eqb_neq _ _ H). reflexivity.
Qed.

Lemma checksumMask_sync_fail (b : byte) (s : list byte) :
  b <> SyncChar2 ->
  checksumMask (SyncChar1 :: b :: s) = false :: false :: checksumMask s.
Proof.
  intros H. rewrite checksumMask_unfold at 1. unfold checksumMask_body.
  rewrite eqb_refl, (eqb_neq _ _ H). reflexivity.
Qed.

Lemma checksumMask_short_header (s : list byte) :
  (length s < 6)%nat -> checksumMask (SyncChar1 :: SyncChar2 :: s) = [].
Proof.
  intros H. rewrite checksumMask_unfold at 1. unfold checksumMask_body.
  rewrite !eqb_refl, (ReadFull_short _ _ H). reflexivity.
Qed.

Lemma checksumMask_header (c1 c2 i1 i2 l1 l2 : byte) (s : list byte) :
  checksumMask
    (SyncChar1 :: SyncChar2 :: c1 :: c2 :: i1 :: i2 :: l1 :: l2 :: s) =
  [false; false; true; true; false; false; false; false] ++
  match Uint16 [l1; l2] with
  | Some len =>
      if (len <? 8) || (len >? 8192) then checksumMask s
      else
        match ReadFull s (Z.to_nat (len - 8)) with
        | None => []
        | Some (payload, rd) => repeat false (length payload) ++ checksumMask rd
        end
  | None => []
  end.
Proof.
  etransitivity; [ apply checksumMask_unfold | reflexivity ].
Qed.

Lemma agree_nil_mask (s1 s2 : list byte) : agree [] s1 s2 -> s2 = s1.
Proof.
  revert s2. induction s1 as [ | x s1 IH ]; intros [ | y s2 ] H;
    simpl in H; try contradiction; [ reflexivity | ].
  destruct H as [ [H | H] H' ]; [ discriminate | ].
  subst y. f_equal. apply IH. assumption.
Qed.

Lemma agree_refl (m : list bool) (s : list byte) : agree m s s.
Proof.
  revert m. induction s as [ | x s IH ]; intros m; simpl; auto.
Qed.

Lemma agree_unmarked (m : list bool) (x : byte) (s1 s2 : list byte) :
  agree (false :: m) (x :: s1) s2 ->
  exists s2', s2 = x :: s2' /\ agree m s1 s2'.
Proof.
  destruct s2 as [ | y s2 ]; simpl; [ contradiction | ].
  intros [ [H | H] H' ]; [ discriminate | ].
  subst y. eauto.
Qed.

Lemma agree_marked (m : list bool) (x : byte) (s1 s2 : list byte) :
  agree (true :: m) (x :: s1) s2 ->
  exists y s2', s2 = y :: s2' /\ agree m s1 s2'.
Proof.
  destruct s2 as [ | y s2 ]; simpl; [ contradiction | ].
  intros [ _ H' ]. eauto.
Qed.

Lemma agree_header (m : list bool) (b1 b2 c1 c2 i1 i2 l1 l2 : byte)
    (s s2 : list byte) :
  agree ([false; false; true; true; false; false; false; false] ++ m)
        (b1 :: b2 :: c1 :: c2 :: i1 :: i2 :: l1 :: l2 :: s) s2 ->
  exists d1 d2 s2',
    s2 = b1 :: b2 :: d1 :: d2 :: i1 :: i2 :: l1 :: l2 :: s2' /\
    agree m s s2'.
Proof.
  intros H. cbn [app] in H.
  apply agree_unmarked in H. destruct H as (t1 & -> & H).
  apply agree_unmarked in H. destruct H as (t2 & -> & H).
  apply agree_marked in H. destruct H as (d1 & t3 & -> & H).
  apply agree_marked in H. destruct H as (d2 & t4 & -> & H).
  apply agree_unmarked in H. destruct H as (t5 & -> & H).
  apply agree_unmarked in H. destruct H as (t6 & -> & H).
  apply agree_unmarked in H. destruct H as (t7 & -> & H).
  apply agree_unmarked in H. destruct H as (t8 & -> & H).
  eauto.
Qed.

Lemma agree_payload (m : list bool) (payload s s2 : list byte) :
  agree (repeat false (length payload) ++ m) (payload ++ s) s2 ->
  exists s2', s2 = payload ++ s2' /\ agree m s s2'.
Proof.
  revert s2. induction payload as [ | x payload IH ]; intros s2 H.
  - exists s2. auto.
  - cbn [length repeat app] in H.
    apply agree_unmarked in H. destruct H as (t & -> & H).
    apply IH in H. destruct H as (s2' & -> & H).
    exists s2'. auto.
Qed.

Lemma sameButChecksums_agree (s1 s2 : list byte) :
  sameButChecksums s1 s2 -> agree (checksumMask s1) s1 s2.
Proof.
  intros [Hlen H]. revert Hlen H. generalize (checksumMask s1) as m.
  revert s2. induction s1 as [ | x s1 IH ]; intros [ | y s2 ] m Hlen H;
    simpl in Hlen; try discriminate; [ exact I | ].
  cbn [agree]. split.
  - destruct m as [ | [ | ] m ]; [ right | left; reflexivity | right ];
      apply Some_inj; apply (H 0%nat); reflexivity.
  - apply IH; [ lia | ].
    intros i Hi. apply (H (S i)).
    destruct m as [ | fl m ]; [ reflexivity | exact Hi ].
Qed.

Lemma agree_sameButChecksums (s1 s2 : list byte) :
  agree (checksumMask s1) s1 s2 -> sameButChecksums s1 s2.
Proof.
  unfold sameButChecksums. generalize (checksumMask s1) as m.
  revert s2. induction s1 as [ | x s1 IH ]; intros [ | y s2 ] m H;
    simpl in H; try contradiction.
  - split; [ reflexivity | intros; reflexivity ].
  - destruct H as [Hd H]. apply IH in H. destruct H as [Hlen H].
    split; [ simpl; lia | ].
    intros [ | i ] Hi.
    + simpl. f_equal. destruct Hd as [Hd | Hd]; [ | assumption ].
      destruct m as [ | fl m ]; simpl in *; congruence.
    + simpl. apply H. destruct m as [ | fl m ]; [ | exact Hi ].
      destruct i; reflexivity.
Qed.

Lemma handleStream_agree (st : string) (s1 : list byte) :
  forall s2, agree (checksumMask s1) s1 s2 ->
             handleStream st s2 = handleStream st s1.
Proof.
  apply (handleStream_induction st
           (fun s r => forall s2, agree (checksumMask s) s s2 ->
                                  handleStream st s2 = r)).
  - intros [ | y s2 ] H; [ reflexivity | simpl in H; contradiction ].
  - intros b s Hb IH s2 H. rewrite checksumMask_skip in H by assumption.
    apply agree_unmarked in H. destruct H as (s2' & -> & H).
    rewrite handleStream_skip by assumption. apply IH. assumption.
  - intros s2 H. change (checksumMask [SyncChar1]) with [false] in H.
    apply agree_unmarked in H. destruct H as (t & -> & H).
    apply agree_nil_mask in H. subst t. reflexivity.
  - intros b s Hb IH s2 H. rewrite checksumMask_sync_fail in H by assumption.
    apply agree_unmarked in H. destruct H as (t & -> & H).
    apply agree_unmarked in H. destruct H as (s2' & -> & H).
    rewrite handleStream_sync_fail by assumption. apply IH. assumption.
  - intros s Hs s2 H. rewrite checksumMask_short_header in H by assumption.
    apply agree_nil_mask in H. subst s2.
    apply handleStream_short_header. assumption.
  - intros c1 c2 i1 i2 l1 l2 s len Hlen Hbad IH s2 H.
    assert (Erange : (len <? 8) || (len >? 8192) = true).
    { apply orb_true_iff. rewrite Z.gtb_ltb.
      destruct Hbad; [ left | right ]; apply Z.ltb_lt; assumption. }
    rewrite checksumMask_header, Hlen, Erange in H.
    apply agree_header in H. destruct H as (d1 & d2 & s2' & -> & H).
    rewrite handleStream_header, Hlen, Erange.
    destruct (Uint16 [i1; i2]) as [ idRaw | ] eqn:Eid;
      [ | unfold Uint16 in Eid; discriminate ].
    apply IH. assumption.
  - intros c1 c2 i1 i2 l1 l2 s len Hlen Hok Hshort s2 H.
    assert (Erange : (len <? 8) || (len >? 8192) = false).
    { apply orb_false_iff. rewrite Z.gtb_ltb.
      split; apply Z.ltb_ge; lia. }
    rewrite checksumMask_header, Hlen, Erange in H.
    rewrite (ReadFull_short _ _ Hshort) in H.
    apply agree_header in H. destruct H as (d1 & d2 & s2' & -> & H).
    apply agree_nil_mask in H. subst s2'.
    rewrite handleStream_header, Hlen, Erange.
    destruct (Uint16 [i1; i2]) as [ idRaw | ] eqn:Eid;
      [ | unfold Uint16 in Eid; discriminate ].
    rewrite (ReadFull_short _ _ Hshort). reflexivity.
  - intros c1 c2 i1 i2 l1 l2 payload s idRaw len samples
      Hid Hlen Hok Hpl Hsamples IH s2 H.
    assert (Erange : (len <? 8) || (len >? 8192) = false).
    { apply orb_false_iff. rewrite Z.gtb_ltb.
      split; apply Z.ltb_ge; lia. }
    rewrite checksumMask_header, Hlen, Erange in H.
    rewrite <- Hpl in H. rewrite ReadFull_app in H.
    apply agree_header in H. destruct H as (d1 & d2 & s2' & -> & H).
    apply agree_payload in H. destruct H as (s2'' & -> & H).
    rewrite handleStream_header, Hid, Hlen, Erange.
    rewrite <- Hpl. rewrite ReadFull_app, Hsamples.
    rewrite (IH _ H). reflexivity.
Qed.

(** C8: the two checksum bytes of a header never influence the handler.  Two
    streams that differ only at checksum positions produce the same calls of
    [parseBlock] (same identifiers, lengths and payloads, in the same order),
    the same gauge updates, and the same exit. *)
Theorem checksum_noninterference (st : string) (s1 s2 : list byte) :
  sameButChecksums s1 s2 ->
  handleStream st s1 = handleStream st s2 /\
  samplesOf (handleStream st s1) = samplesOf (handleStream st s2).
Proof.
  intros H. apply sameButChecksums_agree in H.
  apply (handleStream_agree st) in H. rewrite H. split; reflexivity.
Qed.

(** The same frame under two different checksums, each time between two
    stray bytes. *)
Lemma checksum_noninterference_witness :
  handleStream "rover-1" (x00 :: statusFrame ++ [x00]) =
  handleStream "rover-1"
    (x00 :: [SyncChar1; SyncChar2; xff; xfe] ++ statusFields ++ statusPayload
         ++ [x00]) /\
  samplesOf (handleStream "rover-1" (x00 :: statusFrame ++ [x00])) =
  samplesOf (handleStream "rover-1"
    (x00 :: [SyncChar1; SyncChar2; xff; xfe] ++ statusFields ++ statusPayload
         ++ [x00])).
Proof.
  apply checksum_noninterference.
  apply agree_sameButChecksums. vm_compute. intuition.
Defined.

(** ** The station supervisor *)

Section SupervisorFacts.

Variable dial : nat -> option (list byte).
Variable s : StationConfig.

Lemma monitorStation_fuel_S (fuel attempt : nat) :
  monitorStation_fuel dial (S fuel) s attempt =
  monitorStation_body dial s (monitorStation_fuel dial fuel s) attempt.
Proof. reflexivity. Qed.

(** While the dials fail, each iteration sets the gauge to 0, dials,
    sleeps ten seconds and starts over. *)
Lemma monitorStation_failing (fuel attempt : nat) :
  (forall k, dial k = None) ->
  monitorStation_fuel dial fuel s attempt =
  (failedAttempts (Name s) attempt fuel, Fuel).
Proof.
  intros Hfail. revert attempt.
  induction fuel as [ | fuel IH ]; intros attempt; [ reflexivity | ].
  rewrite monitorStation_fuel_S. unfold monitorStation_body.
  rewrite Hfail, IH. reflexivity.
Qed.

(** A dial that succeeds is followed by the update to 1 and the call of
    [handleStream] on the connection. *)
Lemma monitorStation_connects (fuel attempt : nat) (conn : list byte) :
  dial attempt = Some conn ->
  exists evs,
    fst (monitorStation_fuel dial (S fuel) s attempt) =
    [EvSet (SetGauge receiverConnected (Name s) 0); EvDial attempt 5;
     EvSet (SetGauge receiverConnected (Name s) 1); EvHandleStream conn]
    ++ evs.
Proof.
  intros Hdial. rewrite monitorStation_fuel_S. unfold monitorStation_body.
  rewrite Hdial, handleStream_returns. unfold after. cbn [fst].
  rewrite <- !app_assoc. eexists. reflexivity.
Qed.

End SupervisorFacts.

Lemma failedAttempts_not_connected (name : string) (k n : nat) :
  existsb setsConnected (failedAttempts name k n) = false.
Proof.
  revert k. induction n as [ | n IH ]; intros k; [ reflexivity | ].
  simpl. apply IH.
Qed.

Lemma failedAttempts_no_stream (name : string) (k n : nat) :
  existsb isHandleStream (failedAttempts name k n) = false.
Proof.
  revert k. induction n as [ | n IH ]; intros k; [ reflexivity | ].
  simpl. apply IH.
Qed.

Lemma failedAttempts_dials (name : string) (k n : nat) :
  length (filter isDial (failedAttempts name k n)) = n.
Proof.
  revert k. induction n as [ | n IH ]; intros k; [ reflexivity | ].
  simpl. f_equal. apply IH.
Qed.

Lemma failedAttempts_order (name : string) (k n : nat) :
  dialsAfterDisconnected name (failedAttempts name k n) = true.
Proof.
  revert k. induction n as [ | n IH ]; intros k; [ reflexivity | ].
  cbn [failedAttempts app dialsAfterDisconnected].
  rewrite String.eqb_refl. simpl. apply IH.
Qed.

Lemma failedAttempts_slept (name : string) (k n : nat) :
  slept (failedAttempts name k n) = 10 * Z.of_nat n.
Proof.
  revert k. induction n as [ | n IH ]; intros k; [ reflexivity | ].
  cbn [failedAttempts app slept]. rewrite IH. lia.
Qed.

(** C9: when every connect attempt fails, the supervisor never gets to the
    connected state.  Whatever the number [n] of iterations, the trace of
    the first [n] iterations is [n] times "set the connectivity gauge to 0,
    dial, sleep 10 s": the gauge is set to 0 before each dial and never to 1,
    [handleStream] is never called, and the loop is still running after the
    [n]-th iteration (exit status [Fuel], never [Return] or [Panic]), having
    made [n] attempts and slept [10 n] seconds. *)
Theorem failing_dials_never_connect
    (dial : nat -> option (list byte)) (s : StationConfig) (n : nat) :
  (forall k, dial k = None) ->
  let run := monitorStation dial n s in
  fst run = failedAttempts (Name s) 0 n /\
  dialsAfterDisconnected (Name s) (fst run) = true /\
  existsb setsConnected (fst run) = false /\
  existsb isHandleStream (fst run) = false /\
  snd run = Fuel /\
  length (filter isDial (fst run)) = n /\
  slept (fst run) = 10 * Z.of_nat n.
Proof.
  intros Hfail run. subst run. unfold monitorStation.
  rewrite monitorStation_failing by assumption. cbn [fst snd].
  repeat split.
  - apply failedAttempts_order.
  - apply failedAttempts_not_connected.
  - apply failedAttempts_no_stream.
  - apply failedAttempts_dials.
  - apply failedAttempts_slept.
Qed.

Lemma failing_dials_never_connect_witness :
  let run := monitorStation (fun _ => None) 3
               (mkStation "rover-1" "192.168.1.11" 28000) in
  fst run = failedAttempts "rover-1" 0 3 /\
  dialsAfterDisconnected "rover-1" (fst run) = true /\
  existsb setsConnected (fst run) = false /\
  existsb isHandleStream (fst run) = false /\
  snd run = Fuel /\
  length (filter isDial (fst run)) = 3%nat /\
  slept (fst run) = 10 * Z.of_nat 3.
Proof.
  apply (failing_dials_never_connect (fun _ => None)
           (mkStation "rover-1" "192.168.1.11" 28000) 3).
  intros k. reflexivity.
Defined.

(** * Further properties *)

(** ** The block decoder *)

Ltac split_blocks :=
  unfold parseBlock;
  repeat match goal with
  | |- context [if ?c then _ else _] => destruct c eqn:?
  end.

(** In a branch whose guard holds: name the bytes and words the block
    reads, then the list of updates. *)
Ltac decode_branch Hrun :=
  revert Hrun;
  repeat match goal with
  | |- context [index ?p ?i] => read_index p i
  | |- context [bind (slice ?p ?lo _) _] => read_u32 p lo
  end;
  intros Hrun; apply Some_inj in Hrun; subst.

Lemma Uint32_slice_range (p : list byte) (lo hi : nat) (v : Z) :
  (b <- slice p lo hi ;; Uint32 b) = Some v -> 0 <= v < 2 ^ 32.
Proof.
  destruct (slice p lo hi) as [ b | ]; [ | discriminate ].
  cbn [bind]. apply Uint32_range.
Qed.

(** X1: [parseBlock] sets a gauge only for one of its six block identifiers
    and only when the payload reaches the minimum of that block; then it sets
    the gauges of the block, each once, in their fixed order. *)
Theorem parseBlock_sets_only_known_blocks
    (st : string) (id : Z) (payload : list byte) (samples : list Sample) :
  parseBlock st id payload = Some samples ->
  samples <> [] ->
  (exists m, minLength id = Some m /\ (m <= length payload)%nat) /\
  map gauge samples = gaugesOf id.
Proof.
  unfold minLength, gaugesOf. split_blocks; guard_facts;
    intros Hrun Hne; try (apply Some_inj in Hrun; subst samples; congruence);
    decode_branch Hrun;
    (split; [ eexists; split; [ reflexivity | lia ] | reflexivity ]).
Qed.

Lemma parseBlock_sets_only_known_blocks_witness :
  (exists m, minLength BlockID_ReceiverStatus = Some m /\
             (m <= length statusPayload)%nat) /\
  map gauge (frameSamples (statusCall "rover-1")) =
  gaugesOf BlockID_ReceiverStatus.
Proof.
  apply (parseBlock_sets_only_known_blocks "rover-1" BlockID_ReceiverStatus
           statusPayload (frameSamples (statusCall "rover-1"))).
  - reflexivity.
  - simpl. discriminate.
Defined.

Lemma jamming_value (flags : byte) :
  let state := 0 in
  let state := if negb (Z.land (u8 flags) 1 =? 0) then 1 else state in
  let state := if negb (Z.land (u8 flags) 2 =? 0) then 2 else state in
  state = 0 \/ state = 1 \/ state = 2.
Proof.
  cbv zeta.
  destruct (negb (Z.land (u8 flags) 2 =? 0));
    destruct (negb (Z.land (u8 flags) 1 =? 0)); auto.
Qed.

Lemma sub32_scaled_range (a b : Z) :
  0 <= float64 (sub32 a b) * 1024 * 1024 <= (2 ^ 32 - 1) * 1024 * 1024 /\
  (float64 (sub32 a b) * 1024 * 1024) mod (1024 * 1024) = 0.
Proof.
  unfold float64, sub32.
  pose proof (Z.mod_pos_bound (a - b) (2 ^ 32) eq_refl) as H.
  change (2 ^ 32) with 4294967296 in *.
  split; [ lia | ].
  rewrite <- Z.mul_assoc. apply Z.mod_mul. lia.
Qed.

Lemma parseBlock_count
    (st : string) (id : Z) (payload : list byte) (samples : list Sample) :
  parseBlock st id payload = Some samples -> (length samples <= 3)%nat.
Proof.
  split_blocks; guard_facts; intros Hrun;
    try (apply Some_inj in Hrun; subst samples; simpl; lia);
    decode_branch Hrun; simpl; lia.
Qed.

(** Every gauge update of [parseBlock] is labelled with the station it was
    given and holds a value in the range of its gauge. *)
Lemma parseBlock_samples_sound
    (st : string) (id : Z) (payload : list byte) (samples : list Sample) :
  parseBlock st id payload = Some samples ->
  Forall (fun x => station x = st /\ gauge x <> receiverConnected /\
                   valueInRange (gauge x) (value x)) samples.
Proof.
  split_blocks; guard_facts; intros Hrun;
    try (apply Some_inj in Hrun; subst samples; constructor);
    decode_branch Hrun;
    repeat match goal with
    | x : byte |- _ =>
        lazymatch goal with
        | _ : 0 <= u8 x < 256 |- _ => fail
        | _ => pose proof (u8_range x); pose proof (int8_range x)
        end
    | H : bind (slice _ _ _) _ = Some _ |- _ =>
        apply Uint32_slice_range in H
    end;
    repeat (apply Forall_cons;
            [ split; [ reflexivity | split; [ discriminate | ] ] | ]);
    try apply Forall_nil;
    cbn [gauge value valueInRange];
    first [ apply jamming_value | apply sub32_scaled_range
          | unfold float64; lia ].
Qed.

(** X2: whatever the payload, [parseBlock] returns without a panic, sets at
    most three gauges, labels each update with the station name it was given
    and never touches the connectivity gauge. *)
Theorem parseBlock_safe_and_labelled
    (st : string) (id : Z) (payload : list byte) :
  exists samples,
    parseBlock st id payload = Some samples /\
    (length samples <= 3)%nat /\
    Forall (fun x => station x = st /\ gauge x <> receiverConnected) samples.
Proof.
  destruct (parseBlock_no_panic st id payload) as [samples Hrun].
  exists samples. split; [ assumption | ]. split.
  - apply (parseBlock_count _ _ _ _ Hrun).
  - eapply Forall_impl; [ | apply (parseBlock_samples_sound _ _ _ _ Hrun) ].
    simpl. tauto.
Qed.

(** X3: every value [parseBlock] writes is in the range of its gauge: a byte
    (0 to 255) for the satellite counts, the CPU load and the quality
    indicators, 0, 1 or 2 for the jamming status, -128 to 127 for the
    temperature, below 2^32 for the uptime, and for the free disk space a
    whole number of mebibytes between 0 and 2^32 - 1, never negative. *)
Theorem parseBlock_values_in_range
    (st : string) (id : Z) (payload : list byte) (samples : list Sample) :
  parseBlock st id payload = Some samples ->
  Forall (fun x => valueInRange (gauge x) (value x)) samples.
Proof.
  intros Hrun.
  eapply Forall_impl; [ | apply (parseBlock_samples_sound _ _ _ _ Hrun) ].
  simpl. tauto.
Qed.

Lemma parseBlock_values_in_range_witness :
  Forall (fun x => valueInRange (gauge x) (value x))
         (frameSamples (statusCall "rover-1")).
Proof.
  apply (parseBlock_values_in_range "rover-1" BlockID_ReceiverStatus
           statusPayload).
  reflexivity.
Defined.

Lemma index_app (p extra : list byte) (i : nat) :
  (i < length p)%nat -> index (p ++ extra) i = index p i.
Proof. intros H. unfold index. apply nth_error_app1. assumption. Qed.

Lemma slice_app (p extra : list byte) (lo hi : nat) :
  (lo <= hi)%nat -> (hi <= length p)%nat ->
  slice (p ++ extra) lo hi = slice p lo hi.
Proof.
  intros H1 H2.
  rewrite !slice_in_range by (rewrite ?length_app; lia).
  f_equal. rewrite skipn_app, firstn_app, length_skipn.
  replace (hi - lo - (length p - lo))%nat with 0%nat by lia.
  replace (lo - length p)%nat with 0%nat by lia.
  simpl. rewrite app_nil_r. reflexivity.
Qed.

(** X4: [parseBlock] reads fixed offsets only: bytes that follow a payload
    which already reaches the minimum of its block change nothing. *)
Theorem parseBlock_ignores_trailing_bytes
    (st : string) (id : Z) (payload extra : list byte) (m : nat) :
  minLength id = Some m ->
  (m <= length payload)%nat ->
  parseBlock st id (payload ++ extra) = parseBlock st id payload.
Proof.
  unfold minLength, parseBlock.
  repeat match goal with
  | |- context [if (id =? ?c) then _ else _] => destruct (id =? c) eqn:?
  end; try discriminate; intros Hm Hlen; apply Some_inj in Hm; subst m;
  repeat match goal with
  | |- context [(?a <? ?b)%nat] =>
      replace (a <? b)%nat with true
        by (symmetry; apply Nat.ltb_lt; rewrite ?length_app; lia)
  | |- context [(?a <=? ?b)%nat] =>
      replace (a <=? b)%nat with true
        by (symmetry; apply Nat.leb_le; rewrite ?length_app; lia)
  end;
  rewrite ?index_app, ?slice_app by lia; reflexivity.
Qed.

Lemma parseBlock_ignores_trailing_bytes_witness :
  parseBlock "rover-1" BlockID_ReceiverStatus (statusPayload ++ [xff; xff]) =
  parseBlock "rover-1" BlockID_ReceiverStatus statusPayload.
Proof.
  apply (parseBlock_ignores_trailing_bytes "rover-1" BlockID_ReceiverStatus
           statusPayload [xff; xff] 16).
  - reflexivity.
  - simpl. lia.
Defined.

Lemma parseBlock_nil (st : string) (id : Z) : parseBlock st id [] = Some [].
Proof.
  split_blocks; guard_facts; try reflexivity; simpl in *; lia.
Qed.

(** ** The stream handler *)

Lemma masked_id (i1 i2 : byte) :
  Z.land (u8 i1 + 256 * u8 i2) 0x1FFF = u8 i1 + 256 * (u8 i2 mod 32).
Proof.
  pose proof (u8_range i1). pose proof (u8_range i2).
  pose proof (Z.mod_pos_bound (u8 i2) 32 eq_refl).
  change 0x1FFF with (Z.ones 13). rewrite Z.land_ones by lia.
  change (2 ^ 13) with 8192.
  rewrite (Z.div_mod (u8 i2) 32) at 1 by lia.
  replace (u8 i1 + 256 * (32 * (u8 i2 / 32) + u8 i2 mod 32))
    with (u8 i1 + 256 * (u8 i2 mod 32) + (u8 i2 / 32) * 8192) by lia.
  rewrite Z.mod_add by lia. apply Z.mod_small. lia.
Qed.

(** X5: the three top bits of the identifier field (the block revision) are
    masked off before the dispatch: two headers that differ only in those
    bits are handled alike. *)
Theorem revision_bits_ignored
    (st : string) (c1 c2 i1 i2 i2' l1 l2 : byte) (rest : list byte) :
  u8 i2 mod 32 = u8 i2' mod 32 ->
  handleStream st
    (SyncChar1 :: SyncChar2 :: c1 :: c2 :: i1 :: i2 :: l1 :: l2 :: rest) =
  handleStream st
    (SyncChar1 :: SyncChar2 :: c1 :: c2 :: i1 :: i2' :: l1 :: l2 :: rest).
Proof.
  intros H. rewrite !handleStream_header, !Uint16_bytes, !masked_id, H.
  reflexivity.
Qed.

Lemma revision_bits_ignored_witness :
  handleStream "rover-1" statusFrame =
  handleStream "rover-1"
    (SyncChar1 :: SyncChar2 :: x12 :: x34 :: xae :: x0f :: x18 :: x00 ::
     statusPayload).
Proof.
  apply (revision_bits_ignored "rover-1" x12 x34 xae x2f x0f x18 x00
           statusPayload).
  reflexivity.
Defined.

(** X6: bytes other than the first sync character in front of the stream are
    skipped one by one; the handler then behaves as on the rest. *)
Theorem garbage_prefix_skipped (st : string) (pre s : list byte) :
  Forall (fun b => b <> SyncChar1) pre ->
  handleStream st (pre ++ s) = handleStream st s.
Proof.
  induction 1 as [ | b pre Hb _ IH ]; [ reflexivity | ].
  simpl. rewrite handleStream_skip by assumption. exact IH.
Qed.

Lemma garbage_prefix_skipped_witness :
  handleStream "rover-1" ([x00; SyncChar2; xff] ++ statusFrame) =
  handleStream "rover-1" statusFrame.
Proof.
  apply garbage_prefix_skipped.
  repeat constructor; discriminate.
Defined.

(** X7: a stream in which the two sync characters never occur next to each
    other gives no call of [parseBlock] and no gauge update, and the handler
    returns when the stream ends. *)
Theorem no_sync_pair_no_frames (st : string) (s : list byte) :
  hasMarker s = false ->
  fst (handleStream st s) = [] /\
  samplesOf (handleStream st s) = [] /\
  snd (handleStream st s) = Return.
Proof.
  intros H. rewrite (handleStream_no_marker st s H). repeat split.
Qed.

Lemma no_sync_pair_no_frames_witness :
  fst (handleStream "rover-1" (SyncChar2 :: SyncChar1 :: statusPayload)) = [] /\
  samplesOf (handleStream "rover-1" (SyncChar2 :: SyncChar1 :: statusPayload))
    = [] /\
  snd (handleStream "rover-1" (SyncChar2 :: SyncChar1 :: statusPayload))
    = Return.
Proof.
  apply no_sync_pair_no_frames. reflexivity.
Defined.

Lemma samplesOf_emit (f : Frame) (r : Result) :
  samplesOf (emit f r) = frameSamples f ++ samplesOf r.
Proof. reflexivity. Qed.

(** X8: every payload handed to [parseBlock] really is in the stream, right
    behind a sync pair and six header bytes whose identifier field, masked to
    13 bits, is the identifier passed and whose length field is the frame's
    length. *)
Theorem frames_occur_in_stream (st : string) (s : list byte) (f : Frame) :
  In f (fst (handleStream st s)) ->
  exists pre c1 c2 i1 i2 l1 l2 post idRaw,
    s = pre ++ SyncChar1 :: SyncChar2 :: c1 :: c2 :: i1 :: i2 :: l1 :: l2 ::
               framePayload f ++ post /\
    Uint16 [i1; i2] = Some idRaw /\
    frameID f = Z.land idRaw 0x1FFF /\
    Uint16 [l1; l2] = Some (frameLength f).
Proof.
  revert s f.
  apply (handleStream_induction st
           (fun s r => forall f, In f (fst r) ->
              exists pre c1 c2 i1 i2 l1 l2 post idRaw,
                s = pre ++ SyncChar1 :: SyncChar2 :: c1 :: c2 :: i1 :: i2 ::
                           l1 :: l2 :: framePayload f ++ post /\
                Uint16 [i1; i2] = Some idRaw /\
                frameID f = Z.land idRaw 0x1FFF /\
                Uint16 [l1; l2] = Some (frameLength f)));
    try (intros; simpl in *; contradiction).
  - intros b s' _ IH f Hf.
    destruct (IH f Hf)
      as (pre & c1 & c2 & i1 & i2 & l1 & l2 & post & idRaw & -> & H).
    exists (b :: pre), c1, c2, i1, i2, l1, l2, post, idRaw.
    split; [ reflexivity | exact H ].
  - intros b s' _ IH f Hf.
    destruct (IH f Hf)
      as (pre & c1 & c2 & i1 & i2 & l1 & l2 & post & idRaw & -> & H).
    exists (SyncChar1 :: b :: pre), c1, c2, i1, i2, l1, l2, post, idRaw.
    split; [ reflexivity | exact H ].
  - intros d1 d2 j1 j2 k1 k2 s' len _ _ IH f Hf.
    destruct (IH f Hf)
      as (pre & c1 & c2 & i1 & i2 & l1 & l2 & post & idRaw & -> & H).
    exists (SyncChar1 :: SyncChar2 :: d1 :: d2 :: j1 :: j2 :: k1 :: k2 :: pre),
      c1, c2, i1, i2, l1, l2, post, idRaw.
    split; [ reflexivity | exact H ].
  - intros d1 d2 j1 j2 k1 k2 payload s' idRaw' len samples
      Hid Hlen _ _ _ IH f [ <- | Hf ].
    + exists [], d1, d2, j1, j2, k1, k2, s', idRaw'.
      repeat split; assumption.
    + destruct (IH f Hf)
        as (pre & c1 & c2 & i1 & i2 & l1 & l2 & post & idRaw & -> & H).
      exists (SyncChar1 :: SyncChar2 :: d1 :: d2 :: j1 :: j2 :: k1 :: k2 ::
              payload ++ pre),
        c1, c2, i1, i2, l1, l2, post, idRaw.
      split; [ | exact H ].
      simpl. rewrite <- app_assoc. reflexivity.
Qed.

Lemma frames_occur_in_stream_witness :
  exists pre c1 c2 i1 i2 l1 l2 post idRaw,
    x00 :: statusFrame ++ [x00] =
      pre ++ SyncChar1 :: SyncChar2 :: c1 :: c2 :: i1 :: i2 :: l1 :: l2 ::
             framePayload (statusCall "rover-1") ++ post /\
    Uint16 [i1; i2] = Some idRaw /\
    frameID (statusCall "rover-1") = Z.land idRaw 0x1FFF /\
    Uint16 [l1; l2] = Some (frameLength (statusCall "rover-1")).
Proof.
  apply (frames_occur_in_stream "rover-1").
  vm_compute. left. reflexivity.
Defined.

(** X9: the frames of a run do not overlap: the lengths their headers
    announced add up to no more than the number of bytes of the stream. *)
Theorem frame_bytes_bounded (st : string) (s : list byte) :
  frameBytes (fst (handleStream st s)) <= Z.of_nat (length s).
Proof.
  apply (handleStream_induction st
           (fun s r => frameBytes (fst r) <= Z.of_nat (length s)));
    intros; cbn [frameBytes fst emit fold_right frameLength length] in *;
    try lia.
  fold (frameBytes (fst (handleStream st s0))).
  rewrite length_app. lia.
Qed.

(** X10: a frame cut off by the end of the stream, inside its header or
    inside its payload, is not handed to [parseBlock]: the handler sets no
    gauge for it and returns. *)
Theorem cut_off_frame_dropped
    (st : string) (c1 c2 i1 i2 l1 l2 : byte) (rest : list byte) (len : Z) :
  Uint16 [l1; l2] = Some len ->
  8 <= len <= 8192 ->
  (length rest < Z.to_nat (len - 8))%nat ->
  handleStream st
    (SyncChar1 :: SyncChar2 :: c1 :: c2 :: i1 :: i2 :: l1 :: l2 :: rest) =
    ([], Return) /\
  forall k, (k < 6)%nat ->
    handleStream st
      (SyncChar1 :: SyncChar2 ::
       firstn k [c1; c2; i1; i2; l1; l2]) = ([], Return).
Proof.
  intros Hlen Hok Hshort. split.
  - rewrite handleStream_header, Hlen.
    destruct (Uint16 [i1; i2]) as [ idRaw | ] eqn:Eid;
      [ | unfold Uint16 in Eid; discriminate ].
    replace ((len <? 8) || (len >? 8192)) with false.
    2:{ symmetry. apply orb_false_iff. rewrite Z.gtb_ltb.
        split; apply Z.ltb_ge; lia. }
    rewrite (ReadFull_short _ _ Hshort). reflexivity.
  - intros k Hk. apply handleStream_short_header.
    rewrite length_firstn. simpl. lia.
Qed.

(** The example frame without its last byte. *)
Lemma cut_off_frame_dropped_witness :
  handleStream "rover-1"
    (SyncChar1 :: SyncChar2 :: x12 :: x34 :: xae :: x2f :: x18 :: x00 ::
     removelast statusPayload) = ([], Return) /\
  forall k, (k < 6)%nat ->
    handleStream "rover-1"
      (SyncChar1 :: SyncChar2 ::
       firstn k [x12; x34; xae; x2f; x18; x00]) = ([], Return).
Proof.
  apply (cut_off_frame_dropped "rover-1" x12 x34 xae x2f x18 x00
           (removelast statusPayload) 24).
  - reflexivity.
  - lia.
  - simpl. lia.
Defined.

(** X11: a header that announces the least length, 8, carries an empty
    payload: [parseBlock] is called on it and sets no gauge, the handler goes
    on right after the header, and this also at the very end of the stream. *)
Theorem empty_payload_frame
    (st : string) (c1 c2 i1 i2 : byte) (rest : list byte) :
  exists idRaw,
    Uint16 [i1; i2] = Some idRaw /\
    handleStream st
      (SyncChar1 :: SyncChar2 :: c1 :: c2 :: i1 :: i2 :: x08 :: x00 :: rest) =
    emit (mkFrame (Z.land idRaw 0x1FFF) 8 [] []) (handleStream st rest) /\
    handleStream st
      [SyncChar1; SyncChar2; c1; c2; i1; i2; x08; x00] =
    ([mkFrame (Z.land idRaw 0x1FFF) 8 [] []], Return).
Proof.
  destruct (Uint16 [i1; i2]) as [ idRaw | ] eqn:Eid;
    [ | unfold Uint16 in Eid; discriminate ].
  exists idRaw. split; [ reflexivity | ].
  assert (H : forall s, handleStream st
      (SyncChar1 :: SyncChar2 :: c1 :: c2 :: i1 :: i2 :: x08 :: x00 :: s) =
    emit (mkFrame (Z.land idRaw 0x1FFF) 8 [] []) (handleStream st s)).
  { intros s. rewrite handleStream_header, Eid.
    change (Uint16 [x08; x00]) with (Some 8).
    change ((8 <? 8) || (8 >? 8192)) with false. cbv iota.
    change (Z.to_nat (8 - 8)) with 0%nat.
    change (ReadFull s 0) with (Some (@nil byte, s)). cbv iota beta.
    rewrite parseBlock_nil. reflexivity. }
  split; [ apply H | ]. rewrite H. reflexivity.
Qed.

Lemma handleStream_samples_ok (st : string) (s : list byte) :
  Forall (fun x => station x = st /\ gauge x <> receiverConnected /\
                   valueInRange (gauge x) (value x))
         (samplesOf (handleStream st s)).
Proof.
  apply (handleStream_induction st
           (fun _ r => Forall _ (samplesOf r)));
    try (intros; assumption); try (intros; constructor).
  intros. rewrite samplesOf_emit. apply Forall_app. split.
  - eapply parseBlock_samples_sound. eassumption.
  - assumption.
Qed.

(** X12: every gauge update made while handling a stream is labelled with
    the station name of that stream, is not the connectivity gauge, and holds
    a value in the range of its gauge. *)
Theorem handleStream_samples_sound
    (st : string) (s : list byte) (x : Sample) :
  In x (samplesOf (handleStream st s)) ->
  station x = st /\ gauge x <> receiverConnected /\
  valueInRange (gauge x) (value x).
Proof.
  intros Hx.
  pose proof (handleStream_samples_ok st s) as H.
  rewrite Forall_forall in H. apply H. assumption.
Qed.

Lemma handleStream_samples_sound_witness :
  station (SetGauge temperature "rover-1" (-5)) = "rover-1"%string /\
  gauge (SetGauge temperature "rover-1" (-5)) <> receiverConnected /\
  valueInRange (gauge (SetGauge temperature "rover-1" (-5)))
               (value (SetGauge temperature "rover-1" (-5))).
Proof.
  apply (handleStream_samples_sound "rover-1" (x00 :: statusFrame)).
  vm_compute. right. right. left. reflexivity.
Defined.

(** X13: frames that follow one another on the wire, each with a length
    field in range that counts its own bytes, are handed to [parseBlock] one
    call per frame, in wire order, whatever their CRC bytes and payloads
    (sync characters inside a payload are not looked at); the handler then
    goes on with what follows the last of them. *)
Theorem frames_decoded_in_wire_order
    (st : string) (ws : list WireFrame) (rest : list byte) :
  Forall wellFramed ws ->
  handleStream st (flat_map wireBytes ws ++ rest) =
  (map (wireCall st) ws ++ fst (handleStream st rest),
   snd (handleStream st rest)).
Proof.
  induction 1 as [ | w ws [Hok Hpl] _ IH ].
  - simpl. destruct (handleStream st rest). reflexivity.
  - cbn [flat_map map]. unfold wireBytes at 1.
    rewrite <- !app_comm_cons, <- app_assoc.
    destruct (handleStream_frame st (fst (wCRC w)) (snd (wCRC w))
                (fst (wID w)) (snd (wID w)) (fst (wLen w)) (snd (wLen w))
                (wPayload w) (flat_map wireBytes ws ++ rest)
                (u16 (wID w)) (u16 (wLen w)))
      as (samples & Hsamples & Hrun);
      [ apply Uint16_bytes | apply Uint16_bytes | exact Hok | lia | ].
    rewrite Hrun, IH. unfold emit, wireCall. cbn [fst snd].
    rewrite Hsamples. reflexivity.
Qed.

(** Two frames back to back, the first with an empty payload and a sync pair
    for CRC, then a stray byte. *)
Lemma frames_decoded_in_wire_order_witness :
  handleStream "rover-1"
    (flat_map wireBytes
       [mkWire (SyncChar1, SyncChar2) (xae, x0f) (x08, x00) [];
        mkWire (x12, x34) (xae, x2f) (x18, x00) statusPayload]
     ++ [xff]) =
  (map (wireCall "rover-1")
       [mkWire (SyncChar1, SyncChar2) (xae, x0f) (x08, x00) [];
        mkWire (x12, x34) (xae, x2f) (x18, x00) statusPayload]
     ++ fst (handleStream "rover-1" [xff]),
   snd (handleStream "rover-1" [xff])).
Proof.
  apply frames_decoded_in_wire_order.
  repeat constructor; vm_compute; congruence.
Defined.

(** ** The station supervisor *)

Lemma filter_isDial_samples (xs : list Sample) :
  filter isDial (map EvSet xs) = [].
Proof. induction xs as [ | x xs IH ]; [ reflexivity | exact IH ]. Qed.

Lemma slept_app (a b : list Event) : slept (a ++ b) = slept a + slept b.
Proof.
  induction a as [ | e a IH ]; [ reflexivity | ].
  destruct e; cbn [app slept]; rewrite IH; lia.
Qed.

Lemma slept_samples (xs : list Sample) : slept (map EvSet xs) = 0.
Proof. induction xs as [ | x xs IH ]; [ reflexivity | exact IH ]. Qed.

Lemma eventSamples_app (a b : list Event) :
  eventSamples (a ++ b) = eventSamples a ++ eventSamples b.
Proof.
  induction a as [ | e a IH ]; [ reflexivity | ].
  destruct e; cbn [app eventSamples]; rewrite IH; reflexivity.
Qed.

Lemma eventSamples_samples (xs : list Sample) :
  eventSamples (map EvSet xs) = xs.
Proof.
  induction xs as [ | x xs IH ]; [ reflexivity | ].
  simpl. rewrite IH. reflexivity.
Qed.

Lemma dials_skip_samples (name : string) (xs : list Sample)
    (rest : list Event) :
  Forall (fun x => gauge x <> receiverConnected) xs ->
  dialsAfterDisconnected name (map EvSet xs ++ rest) =
  dialsAfterDisconnected name rest.
Proof.
  induction 1 as [ | [g n v] xs Hg _ IH ]; [ reflexivity | ].
  simpl in Hg. destruct g; try contradiction; exact IH.
Qed.

Lemma streams_skip_samples (name : string) (xs : list Sample)
    (rest : list Event) :
  streamsAfterConnected name (map EvSet xs ++ rest) =
  streamsAfterConnected name rest.
Proof.
  induction xs as [ | x xs IH ]; [ reflexivity | exact IH ].
Qed.

(** One iteration of the supervisor's loop, by the outcome of the dial. *)
Lemma monitorStation_step (dial : nat -> option (list byte))
    (s : StationConfig) (fuel k : nat) :
  monitorStation_fuel dial (S fuel) s k =
  match dial k with
  | None =>
      after [EvSet (SetGauge receiverConnected (Name s) 0); EvDial k 5;
             EvSleep 10]
            (monitorStation_fuel dial fuel s (S k))
  | Some conn =>
      after ([EvSet (SetGauge receiverConnected (Name s) 0); EvDial k 5;
              EvSet (SetGauge receiverConnected (Name s) 1);
              EvHandleStream conn]
             ++ map EvSet (samplesOf (handleStream (Name s) conn))
             ++ [EvClose; EvSleep 5])
            (monitorStation_fuel dial fuel s (S k))
  end.
Proof.
  cbn [monitorStation_fuel]. unfold monitorStation_body.
  destruct (dial k) as [ conn | ]; [ | reflexivity ].
  rewrite handleStream_returns. rewrite <- app_assoc. reflexivity.
Qed.

(** X14: whatever the network does, the supervisor's loop never exits and
    never panics: after any number [n] of iterations it is still running,
    and it has dialled exactly [n] times, once per iteration. *)
Theorem supervisor_never_exits
    (dial : nat -> option (list byte)) (s : StationConfig) (n : nat) :
  snd (monitorStation dial n s) = Fuel /\
  length (filter isDial (fst (monitorStation dial n s))) = n.
Proof.
  unfold monitorStation. generalize 0%nat as k.
  induction n as [ | n IH ]; intros k; [ split; reflexivity | ].
  rewrite monitorStation_step. destruct (IH (S k)) as [IH1 IH2].
  destruct (dial k) as [ conn | ]; unfold after; cbn [fst snd];
    (split; [ exact IH1 | ]).
  - rewrite <- !app_assoc, !filter_app, filter_isDial_samples.
    cbn [filter isDial app length]. rewrite IH2. reflexivity.
  - cbn [filter isDial app length]. rewrite IH2. reflexivity.
Qed.

(** X15: when a dial succeeds, the gauge goes to 1, the connection is
    handled, its gauge updates follow, and once the stream has ended the
    connection is closed, the supervisor sleeps five seconds, sets the
    gauge back to 0 and dials again. *)
Theorem stream_end_reconnects
    (dial : nat -> option (list byte)) (s : StationConfig) (n k : nat)
    (conn : list byte) :
  dial k = Some conn ->
  exists tail,
    fst (monitorStation_fuel dial (S (S n)) s k) =
    [EvSet (SetGauge receiverConnected (Name s) 0); EvDial k 5;
     EvSet (SetGauge receiverConnected (Name s) 1); EvHandleStream conn]
    ++ map EvSet (samplesOf (handleStream (Name s) conn))
    ++ [EvClose; EvSleep 5;
        EvSet (SetGauge receiverConnected (Name s) 0); EvDial (S k) 5]
    ++ tail.
Proof.
  intros Hdial. rewrite monitorStation_step, Hdial.
  rewrite monitorStation_step.
  destruct (dial (S k)) as [ conn' | ]; unfold after; cbn [fst];
    rewrite <- !app_assoc; cbn [app]; eexists;
    repeat f_equal.
Qed.

Lemma stream_end_reconnects_witness :
  exists tail,
    fst (monitorStation_fuel
           (fun k => match k with O => Some statusFrame | _ => None end)
           2 (mkStation "rover-1" "192.168.1.11" 28000) 0) =
    [EvSet (SetGauge receiverConnected "rover-1" 0); EvDial 0 5;
     EvSet (SetGauge receiverConnected "rover-1" 1);
     EvHandleStream statusFrame]
    ++ map EvSet (samplesOf (handleStream "rover-1" statusFrame))
    ++ [EvClose; EvSleep 5;
        EvSet (SetGauge receiverConnected "rover-1" 0); EvDial 1 5]
    ++ tail.
Proof.
  apply (stream_end_reconnects
           (fun k => match k with O => Some statusFrame | _ => None end)
           (mkStation "rover-1" "192.168.1.11" 28000) 0 0 statusFrame).
  reflexivity.
Defined.

(** X16: a supervisor writes only gauges labelled with the name of its own
    station, and only values in the range of the gauge: 0 or 1 for the
    connectivity gauge, the decoder's ranges for the others. *)
Theorem supervisor_writes_own_station
    (dial : nat -> option (list byte)) (s : StationConfig) (n : nat) :
  Forall (fun x => station x = Name s /\ valueInRange (gauge x) (value x))
         (eventSamples (fst (monitorStation dial n s))).
Proof.
  unfold monitorStation. generalize 0%nat as k.
  induction n as [ | n IH ]; intros k; [ constructor | ].
  rewrite monitorStation_step.
  destruct (dial k) as [ conn | ]; unfold after; cbn [fst].
  - rewrite <- !app_assoc. cbn [app eventSamples].
    constructor; [ simpl; auto | ].
    constructor; [ simpl; auto | ].
    rewrite eventSamples_app, eventSamples_samples.
    apply Forall_app. split.
    + eapply Forall_impl; [ | apply handleStream_samples_ok ].
      simpl. tauto.
    + cbn [app eventSamples]. apply IH.
  - cbn [app eventSamples]. constructor; [ simpl; auto | apply IH ].
Qed.

(** X17: the supervisor sleeps ten seconds after each failed dial and five
    seconds after each connection that ended, and at no other time: over [n]
    iterations of which [failures] failed to connect, it has slept
    [10 * failures + 5 * (n - failures)] seconds. *)
Theorem supervisor_sleep_total
    (dial : nat -> option (list byte)) (s : StationConfig) (n : nat) :
  slept (fst (monitorStation dial n s)) =
  10 * Z.of_nat (failures dial 0 n) +
  5 * (Z.of_nat n - Z.of_nat (failures dial 0 n)).
Proof.
  unfold monitorStation. generalize 0%nat as k.
  induction n as [ | n IH ]; intros k; [ reflexivity | ].
  rewrite monitorStation_step. cbn [failures].
  destruct (dial k) as [ conn | ]; unfold after; cbn [fst].
  - rewrite <- !app_assoc. cbn [app slept].
    rewrite slept_app, slept_samples. cbn [app slept].
    rewrite IH. lia.
  - cbn [app slept]. rewrite IH. lia.
Qed.

(** X18: in every run of the supervisor, whatever the network does, each
    dial comes right after the connectivity gauge of the station was set to
    0, and each call of [handleStream] comes right after a dial followed by
    the update of that gauge to 1. *)
Theorem supervisor_event_order
    (dial : nat -> option (list byte)) (s : StationConfig) (n : nat) :
  dialsAfterDisconnected (Name s) (fst (monitorStation dial n s)) = true /\
  streamsAfterConnected (Name s) (fst (monitorStation dial n s)) = true.
Proof.
  unfold monitorStation. generalize 0%nat as k.
  induction n as [ | n IH ]; intros k; [ split; reflexivity | ].
  rewrite monitorStation_step. destruct (IH (S k)) as [IH1 IH2].
  destruct (dial k) as [ conn | ]; unfold after; cbn [fst].
  - rewrite <- !app_assoc.
    cbn [app dialsAfterDisconnected streamsAfterConnected].
    rewrite String.eqb_refl.
    rewrite dials_skip_samples, streams_skip_samples.
    + cbn [app dialsAfterDisconnected streamsAfterConnected].
      rewrite IH1, IH2. split; reflexivity.
    + eapply Forall_impl; [ | apply handleStream_samples_ok ].
      simpl. tauto.
  - cbn [app dialsAfterDisconnected streamsAfterConnected].
    rewrite String.eqb_refl, IH1, IH2. split; reflexivity.
Qed.

Lemma index_Some_length (p : list byte) (i : nat) (b : byte) :
  index p i = Some b -> (i < length p)%nat.
Proof.
  intros H. apply nth_error_Some. unfold index in H. congruence.
Qed.

(** X19: the one-byte fields are copied as they are.  A PVTGeodetic payload
    that has a byte at offset 66 sets the satellites-used gauge to it, a
    MeasEpoch payload that has a byte at offset 6 sets the satellites-tracked
    gauge to it, and a QualityInd payload that has a byte at offset 8 sets
    the three quality gauges to the bytes at offsets 6, 7 and 8. *)
Theorem byte_fields_copied (st : string) (payload : list byte) :
  (forall b, index payload 66 = Some b ->
     parseBlock st BlockID_PVTGeodetic payload =
     Some [SetGauge satellitesUsed st (u8 b)]) /\
  (forall b, index payload 6 = Some b ->
     parseBlock st BlockID_MeasEpoch payload =
     Some [SetGauge satellitesTracked st (u8 b)]) /\
  (forall a b c,
     index payload 6 = Some a -> index payload 7 = Some b ->
     index payload 8 = Some c ->
     parseBlock st BlockID_QualityInd payload =
     Some [SetGauge qualityOverall st (u8 a);
           SetGauge qualitySignal st (u8 b);
           SetGauge qualityRF st (u8 c)]).
Proof.
  repeat split.
  - intros b Hb. pose proof (index_Some_length _ _ _ Hb) as Hlen.
    change (parseBlock st BlockID_PVTGeodetic payload) with
      (if (66 <? length payload)%nat
       then nrSv <- index payload 66 ;;
            Some [SetGauge satellitesUsed st (float64 (u8 nrSv))]
       else Some []).
    apply Nat.ltb_lt in Hlen. rewrite Hlen, Hb. reflexivity.
  - intros b Hb. pose proof (index_Some_length _ _ _ Hb) as Hlen.
    change (parseBlock st BlockID_MeasEpoch payload) with
      (if (6 <? length payload)%nat
       then n <- index payload 6 ;;
            Some [SetGauge satellitesTracked st (float64 (u8 n))]
       else Some []).
    apply Nat.ltb_lt in Hlen. rewrite Hlen, Hb. reflexivity.
  - intros a b c Ha Hb Hc. pose proof (index_Some_length _ _ _ Hc) as Hlen.
    change (parseBlock st BlockID_QualityInd payload) with
      (if (9 <=? length payload)%nat
       then qOver <- index payload 6 ;;
            qSig <- index payload 7 ;;
            qRF <- index payload 8 ;;
            Some [SetGauge qualityOverall st (float64 (u8 qOver));
                  SetGauge qualitySignal st (float64 (u8 qSig));
                  SetGauge qualityRF st (float64 (u8 qRF))]
       else Some []).
    replace (9 <=? length payload)%nat with true
      by (symmetry; apply Nat.leb_le; lia).
    rewrite Ha, Hb, Hc. reflexivity.
Qed.

Lemma byte_fields_copied_witness :
  parseBlock "rover-1" BlockID_QualityInd
    [x00; x00; x00; x00; x00; x00; x0a; x07; x09] =
  Some [SetGauge qualityOverall "rover-1" 10;
        SetGauge qualitySignal "rover-1" 7;
        SetGauge qualityRF "rover-1" 9].
Proof.
  apply (proj2 (proj2 (byte_fields_copied "rover-1"
           [x00; x00; x00; x00; x00; x00; x0a; x07; x09])) x0a x07 x09);
    reflexivity.
Defined.
